(** * fastip: racing TCP dials against the latency cache (fastip/ping.go)

    A shallow embedding of [schedulePings], [pingAll], [firstSuccessRes] and
    [pingDoTCP].  The coordinator goroutine is written in a small state monad
    whose state records the effects it performs (channel creation, cache
    lookups, [go] statements, [select] outcomes); a probe worker is the list
    of its atomic effects, and the race is an interleaving of the workers
    with the receiving side of the channel.  The scan of the cache comes
    twice: against the cache as it stood at the call, and, in [Conc],
    against the cache as each lookup finds it while the workers write it.
    [log.Debug] calls are not modelled. *)

From Stdlib Require Import ZArith List Bool String Lia Arith.
Import ListNotations.
Open Scope Z_scope.

(** ** net/netip: the part of the address API that ping.go uses *)

Module netip.

(** The [z] field of [netip.Addr]: [z0] is the zero Addr, [z4] an IPv4
    address, [z6noz] an IPv6 address without zone, [z6zone] one with a
    zone. *)
Inductive addrDetail :=
| z0
| z4
| z6noz
| z6zone (zone : string).

(** [netip.Addr]: a 128-bit value ([hi], [lo]) and its kind. *)
Record Addr := mkAddr { hi : Z; lo : Z; z : addrDetail }.

(** [netip.AddrPort]: an address and a 16-bit port. *)
Record AddrPort := mkAddrPort { ip : Addr; port : Z }.

Definition AddrPortFrom (a : Addr) (p : Z) : AddrPort :=
  {| ip := a; port := p |}.

(** [AddrPort.Addr()]. *)
Definition AddrOf (p : AddrPort) : Addr := ip p.

Definition Is6 (a : Addr) : bool :=
  match z a with
  | z0 | z4 => false
  | _ => true
  end.

Definition Is4In6 (a : Addr) : bool :=
  Is6 a && (hi a =? 0) && (Z.shiftr (lo a) 32 =? 0xffff).

(** [Addr.Unmap()]: an IPv4-mapped IPv6 address becomes the IPv4 one. *)
Definition Unmap (a : Addr) : Addr :=
  if Is4In6 a then {| hi := hi a; lo := lo a; z := z4 |} else a.

Definition addrDetail_eqb (x y : addrDetail) : bool :=
  match x, y with
  | z0, z0 | z4, z4 | z6noz, z6noz => true
  | z6zone s, z6zone t => String.eqb s t
  | _, _ => false
  end.

Definition Addr_eqb (a b : Addr) : bool :=
  (hi a =? hi b) && (lo a =? lo b) && addrDetail_eqb (z a) (z b).

End netip.

(** ** Machine integers *)

(** Go's [uint] on a 64-bit platform, and the conversions of ping.go. *)
Definition UintSize : Z := 64.

(** [uint(x)] for an [int64] [x]: wrap-around modulo 2^64. *)
Definition uint_of_int64 (x : Z) : Z := x mod 2 ^ UintSize.

(** [uint16(port)] for a [uint] port. *)
Definition uint16 (x : Z) : Z := x mod 2 ^ 16.

(** [time.Duration.Milliseconds()]: the duration is an [int64] count of
    nanoseconds, and Go's integer division truncates toward zero. *)
Definition Milliseconds (d : Z) : Z := Z.quot d 1000000.

(** ** Data of the package *)

(** [pingResult] is the result of dialing the address. *)
Record pingResult := mkPingResult {
  addrPort : netip.AddrPort;
  latency : Z;
  success : bool
}.

(** The cache entry that [cacheFind] returns; ping.go reads its [status]
    (zero for a successful measurement) and its [latencyMsec]. *)
Record cacheEntry := mkCacheEntry {
  status : Z;
  latencyMsec : Z
}.

(** The receiver [*FastestAddr].  The struct and its cache methods are
    declared in other files of the package, so the embedding takes them as an
    interface: the configured ports and the three cache methods that ping.go
    calls. *)
Class FastestAddrOps (F : Type) := {
  pingPorts : F -> list Z;
  cacheFind : F -> netip.Addr -> option cacheEntry;
  cacheAddSuccessful : F -> netip.Addr -> Z -> F;
  cacheAddFailure : F -> netip.Addr -> F
}.

(** ** The coordinator's effects *)

(** One iteration of the [select] in [firstSuccessRes] either receives a
    result from [resCh] or sees the timer of [time.After] fire. *)
Inductive selectCase :=
| RecvRes (res : pingResult)
| AfterFired.

Inductive Event :=
| EvMakeChan (cap : nat)
| EvCacheFind (ip : netip.Addr)
| EvGo (host : string) (ap : netip.AddrPort)
| EvSelect (c : selectCase).

(** The coordinator's state: the effects performed so far (oldest first) and
    the outcomes the forthcoming [select] statements will have. *)
Record Coord := mkCoord {
  events : list Event;
  pending : list selectCase
}.

(** A computation runs from a state to a state; it either returns a value
    ([Some]) or is still blocked in [select], the known outcomes being used
    up ([None]).  The effects performed up to that point are kept. *)
Definition M (A : Type) : Type := Coord -> option A * Coord.

Definition ret {A} (a : A) : M A := fun s => (Some a, s).

Definition bind {A B} (m : M A) (k : A -> M B) : M B :=
  fun s => match m s with
           | (Some a, s') => k a s'
           | (None, s') => (None, s')
           end.

Declare Scope coord_scope.
Delimit Scope coord_scope with coord.
Notation "x <- m ;; k" := (bind m (fun x => k))
  (at level 61, m at next level, right associativity) : coord_scope.
Notation "m ;;; k" := (bind m (fun _ => k))
  (at level 61, right associativity) : coord_scope.
Open Scope coord_scope.

Definition emit (e : Event) : M unit :=
  fun s => (Some tt, {| events := events s ++ [e]; pending := pending s |}).

(** The state at the start of a call whose [select] statements will have
    the outcomes [sel]. *)
Definition init (sel : list selectCase) : Coord :=
  {| events := []; pending := sel |}.

Fixpoint forEach {A} (l : list A) (body : A -> M unit) : M unit :=
  match l with
  | [] => ret tt
  | x :: rest => body x ;;; forEach rest body
  end.

Section Ping.

Context {F : Type} `{FastestAddrOps F}.

(** [f.cacheFind(ip)], recorded as an effect.  Here the cache is read as it
    stands in [f] when the call is made: these are the runs in which no
    write of a worker comes between the lookups of the scan.  The scan whose
    lookups see the cache as the workers leave it is [Conc.schedulePings]
    below, of which this one is the case [at_call f]. *)
Definition do_cacheFind (f : F) (a : netip.Addr) : M (option cacheEntry) :=
  emit (EvCacheFind a) ;;; ret (cacheFind f a).

(** [go f.pingDoTCP(host, addrPort, resCh)]. *)
Definition go_pingDoTCP (host : string) (ap : netip.AddrPort) : M unit :=
  emit (EvGo host ap).

(** The body of the loop of [schedulePings], on the loop variables
    [(pr, scheduled)]. *)
Definition schedulePings_body (f : F) (host : string) (a : netip.Addr)
    (st : option pingResult * bool) : M (option pingResult * bool) :=
  let '(pr, scheduled) := st in
  cached <- do_cacheFind f a ;;
  match cached with
  | None =>
      forEach (pingPorts f)
        (fun p => go_pingDoTCP host (netip.AddrPortFrom a (uint16 p))) ;;;
      ret (pr, true)
  | Some cached =>
      if (status cached =? 0)
         && match pr with
            | None => true
            | Some p => latencyMsec cached <? latency p
            end
      then ret (Some {| addrPort := netip.AddrPortFrom a 0;
                        latency := latencyMsec cached;
                        success := true |}, scheduled)
      else ret (pr, scheduled)
  end.

Fixpoint schedulePings_loop (f : F) (host : string) (ips : list netip.Addr)
    (st : option pingResult * bool) : M (option pingResult * bool) :=
  match ips with
  | [] => ret st
  | a :: rest =>
      st' <- schedulePings_body f host a st ;;
      schedulePings_loop f host rest st'
  end.

(** [schedulePings] returns the result with the fastest IP address from
    the cache, if it is found, and the [scheduled] flag. *)
Definition schedulePings (f : F) (ips : list netip.Addr) (host : string)
    : M (option pingResult * bool) :=
  schedulePings_loop f host ips (None, false).

(** The [for { select { ... } }] loop of [firstSuccessRes], by recursion on
    the outcomes still to come; [evs] are the effects performed so far. *)
Fixpoint firstSuccessRes_loop (sel : list selectCase) (evs : list Event)
    : option (option pingResult) * Coord :=
  match sel with
  | [] => (None, {| events := evs; pending := [] |})
  | RecvRes res :: rest =>
      if negb (success res)
      then firstSuccessRes_loop rest (evs ++ [EvSelect (RecvRes res)])
      else (Some (Some res),
            {| events := evs ++ [EvSelect (RecvRes res)]; pending := rest |})
  | AfterFired :: rest =>
      (Some None,
       {| events := evs ++ [EvSelect AfterFired]; pending := rest |})
  end.

(** [firstSuccessRes] waits and returns the first successful ping result
    or nil in case of timeout. *)
Definition firstSuccessRes (f : F) (host : string) : M (option pingResult) :=
  fun s => firstSuccessRes_loop (pending s) (events s).

(** [pingAll] pings all ips concurrently and returns as soon as the
    fastest one is found or the timeout is exceeded.  The capacity
    [ipN*len(f.pingPorts)] of [resCh] is a product of two slice lengths and
    is taken in [nat]. *)
Definition pingAll (f : F) (host : string) (ips : list netip.Addr)
    : M (option pingResult) :=
  let ipN := List.length ips in
  match ips with
  | [] => ret None
  | [ip0] => ret (Some {| addrPort := netip.AddrPortFrom ip0 0;
                          latency := 0;
                          success := true |})
  | _ =>
      emit (EvMakeChan (ipN * List.length (pingPorts f))) ;;;
      r <- schedulePings f ips host ;;
      let '(pr, scheduled) := r in
      if negb scheduled then ret pr
      else
        res <- firstSuccessRes f host ;;
        match res with
        | None => ret pr
        | Some res =>
            if match pr with
               | None => true
               | Some p => latency res <=? latency p
               end
            then ret (Some res)
            else ret pr
        end
  end.

End Ping.

(** ** The probe worker and the result channel *)

(** What [f.pinger.Dial] gave and how long it took: [dial_failed] is
    [err != nil], [elapsed] is [time.Since(start)], an [int64] count of
    nanoseconds. *)
Record DialOutcome := mkDialOutcome {
  dial_failed : bool;
  elapsed : Z
}.

(** The atomic effects of a worker on the state it shares with the other
    goroutines: the send on [resCh] and the two cache updates. *)
Inductive Action :=
| ActSend (res : pingResult)
| ActCacheAddSuccessful (a : netip.Addr) (latency : Z)
| ActCacheAddFailure (a : netip.Addr).

(** [pingDoTCP] sends the result of dialing the specified address into
    [resCh], then updates the cache.  The dial is over when the first shared
    effect happens, so its outcome is an argument; closing the connection
    touches no shared state. *)
Definition pingDoTCP (host : string) (addrPort : netip.AddrPort)
    (d : DialOutcome) : list Action :=
  let success := negb (dial_failed d) in
  let latency := uint_of_int64 (Milliseconds (elapsed d)) in
  ActSend {| addrPort := addrPort; latency := latency; success := success |}
  :: (let addr := netip.Unmap (netip.AddrOf addrPort) in
      if success
      then [ActCacheAddSuccessful addr latency]
      else [ActCacheAddFailure addr]).

Section Race.

Context {F : Type} `{FastestAddrOps F}.

(** The state shared by the goroutines of one call: the buffered channel
    [resCh] (its queue and its capacity) and the receiver [f], whose cache
    the workers update. *)
Record Shared := mkShared {
  resCh_buf : list pingResult;
  resCh_cap : nat;
  fa : F
}.

(** One atomic effect; [None] when it cannot happen now, which is a send
    on a full channel. *)
Definition exec (a : Action) (sh : Shared) : option Shared :=
  match a with
  | ActSend res =>
      if (List.length (resCh_buf sh) <? resCh_cap sh)%nat
      then Some {| resCh_buf := resCh_buf sh ++ [res];
                   resCh_cap := resCh_cap sh;
                   fa := fa sh |}
      else None
  | ActCacheAddSuccessful a l =>
      Some {| resCh_buf := resCh_buf sh;
              resCh_cap := resCh_cap sh;
              fa := cacheAddSuccessful (fa sh) a l |}
  | ActCacheAddFailure a =>
      Some {| resCh_buf := resCh_buf sh;
              resCh_cap := resCh_cap sh;
              fa := cacheAddFailure (fa sh) a |}
  end.

(** A worker running on its own until it ends or blocks. *)
Fixpoint run_worker (acts : list Action) (sh : Shared) : option Shared :=
  match acts with
  | [] => Some sh
  | a :: rest =>
      match exec a sh with
      | Some sh' => run_worker rest sh'
      | None => None
      end
  end.

(** The race: the shared state and, for every worker, what it still has to
    do. *)
Record Race := mkRace {
  shared : Shared;
  workers : list (list Action)
}.

Fixpoint set_nth {A} (n : nat) (x : A) (l : list A) : list A :=
  match l, n with
  | [], _ => []
  | _ :: t, O => x :: t
  | h :: t, S n' => h :: set_nth n' x t
  end.

(** A step of the race: some worker performs its next effect, or the
    receiving side takes the oldest result out of the channel.  The
    receiver is free never to step again. *)
Inductive step : Race -> Race -> Prop :=
| step_worker r i a rest sh' :
    nth_error (workers r) i = Some (a :: rest) ->
    exec a (shared r) = Some sh' ->
    step r {| shared := sh'; workers := set_nth i rest (workers r) |}
| step_recv r res buf' :
    resCh_buf (shared r) = res :: buf' ->
    step r {| shared := {| resCh_buf := buf';
                           resCh_cap := resCh_cap (shared r);
                           fa := fa (shared r) |};
              workers := workers r |}.

Inductive reachable (r0 : Race) : Race -> Prop :=
| reach_refl : reachable r0 r0
| reach_step r r' : reachable r0 r -> step r r' -> reachable r0 r'.

(** The [go] statements and the channel capacity found among the effects
    of the coordinator. *)
Fixpoint started (evs : list Event) : list (string * netip.AddrPort) :=
  match evs with
  | [] => []
  | EvGo host ap :: rest => (host, ap) :: started rest
  | _ :: rest => started rest
  end.

Fixpoint made_cap (evs : list Event) : nat :=
  match evs with
  | [] => O
  | EvMakeChan n :: _ => n
  | _ :: rest => made_cap rest
  end.

Fixpoint selects (evs : list Event) : list selectCase :=
  match evs with
  | [] => []
  | EvSelect c :: rest => c :: selects rest
  | _ :: rest => selects rest
  end.

(** The addresses looked up in the cache, in the order of the lookups. *)
Fixpoint looked_up (evs : list Event) : list netip.Addr :=
  match evs with
  | [] => []
  | EvCacheFind a :: rest => a :: looked_up rest
  | _ :: rest => looked_up rest
  end.

(** The race that the effects [evs] of a call set up, the [i]-th worker's
    dial ending as [dials i].  All the workers of the call are there from the
    start; one that the scan has not started yet is one that has not stepped
    yet. *)
Definition race_of (f : F) (evs : list Event) (dials : nat -> DialOutcome)
    : Race :=
  {| shared := {| resCh_buf := []; resCh_cap := made_cap evs; fa := f |};
     workers :=
       map (fun '(i, (host, ap)) => pingDoTCP host ap (dials i))
           (combine (seq 0 (List.length (started evs))) (started evs)) |}.

(** How many sends the workers still have to do. *)
Definition is_send (a : Action) : bool :=
  match a with ActSend _ => true | _ => false end.

Definition sends_left (ws : list (list Action)) : nat :=
  List.length (filter is_send (List.concat ws)).

(** The queue of [resCh] has room for every send still to come. *)
Definition has_room (r : Race) : Prop :=
  (List.length (resCh_buf (shared r)) + sends_left (workers r)
   <= resCh_cap (shared r))%nat.

(** Every result in the channel, and every result still to be sent, is for
    one of the address-port pairs [aps]. *)
Definition sends_for (aps : list netip.AddrPort) (acts : list Action)
    : Prop :=
  forall res, In (ActSend res) acts -> In (addrPort res) aps.

Definition results_for (aps : list netip.AddrPort) (r : Race) : Prop :=
  (forall res, In res (resCh_buf (shared r)) -> In (addrPort res) aps) /\
  (forall acts, In acts (workers r) -> sends_for aps acts).

End Race.

(** ** A concrete receiver *)

(** Modelled from the spec: the [FastestAddr] struct and its latency cache,
    which are declared outside ping.go.  The cache stores, per address, a
    status and a latency; [find] returns the entry or nothing,
    [recordSuccess] stores a success entry with the latency, [recordFailure]
    stores a failure entry.  It serves as the instance on which the
    development is run. *)
Record FastestAddr := mkFastestAddr {
  fa_pingPorts : list Z;
  ipCache : list (netip.Addr * cacheEntry)
}.

Fixpoint cache_lookup (a : netip.Addr) (c : list (netip.Addr * cacheEntry))
    : option cacheEntry :=
  match c with
  | [] => None
  | (b, e) :: rest => if netip.Addr_eqb a b then Some e else cache_lookup a rest
  end.

#[global] Instance FastestAddr_ops : FastestAddrOps FastestAddr := {|
  pingPorts := fa_pingPorts;
  cacheFind := fun f a => cache_lookup a (ipCache f);
  cacheAddSuccessful := fun f a l =>
    {| fa_pingPorts := fa_pingPorts f;
       ipCache := (a, {| status := 0; latencyMsec := l |}) :: ipCache f |};
  cacheAddFailure := fun f a =>
    {| fa_pingPorts := fa_pingPorts f;
       ipCache := (a, {| status := 1; latencyMsec := 0 |}) :: ipCache f |}
|}.

(** Sample addresses: 192.0.2.1, 192.0.2.2, 2001:db8::1 and the IPv4-mapped
    ::ffff:192.0.2.1. *)
Definition ipA : netip.Addr := netip.mkAddr 0 0xffffc0000201 netip.z4.
Definition ipB : netip.Addr := netip.mkAddr 0 0xffffc0000202 netip.z4.
Definition ipC : netip.Addr := netip.mkAddr 0x20010db800000000 1 netip.z6noz.
Definition ipA_mapped : netip.Addr := netip.mkAddr 0 0xffffc0000201 netip.z6noz.

(** Receivers, results and a dial outcome on which the development is run. *)
Definition fa_empty : FastestAddr :=
  {| fa_pingPorts := [80; 443]; ipCache := [] |}.

Definition fa_noports : FastestAddr :=
  {| fa_pingPorts := []; ipCache := [] |}.

Definition fa_A50 : FastestAddr :=
  {| fa_pingPorts := [80; 443];
     ipCache := [(ipA, {| status := 0; latencyMsec := 50 |})] |}.

Definition fa_B50 : FastestAddr :=
  {| fa_pingPorts := [80; 443];
     ipCache := [(ipB, {| status := 0; latencyMsec := 50 |})] |}.

Definition fa_tie : FastestAddr :=
  {| fa_pingPorts := [80; 443];
     ipCache := [(ipA, {| status := 0; latencyMsec := 50 |});
                 (ipB, {| status := 0; latencyMsec := 20 |});
                 (ipC, {| status := 0; latencyMsec := 20 |})] |}.

Definition fa_Afailed_B50 : FastestAddr :=
  {| fa_pingPorts := [80; 443];
     ipCache := [(ipA, {| status := 1; latencyMsec := 0 |});
                 (ipB, {| status := 0; latencyMsec := 50 |})] |}.

Definition fa_all_failed : FastestAddr :=
  {| fa_pingPorts := [80; 443];
     ipCache := [(ipA, {| status := 1; latencyMsec := 0 |});
                 (ipB, {| status := 1; latencyMsec := 0 |})] |}.

Definition res_fail_A : pingResult :=
  {| addrPort := netip.AddrPortFrom ipA 80; latency := 12; success := false |}.

Definition res_ok_A : pingResult :=
  {| addrPort := netip.AddrPortFrom ipA 443; latency := 30; success := true |}.

Definition res_ok_C : pingResult :=
  {| addrPort := netip.AddrPortFrom ipC 80; latency := 20; success := true |}.

Definition res_fail_B : pingResult :=
  {| addrPort := netip.AddrPortFrom ipB 443; latency := 4000; success := false |}.


Definition fa_noports_A50 : FastestAddr :=
  {| fa_pingPorts := [];
     ipCache := [(ipA, {| status := 0; latencyMsec := 50 |})] |}.

Definition dial_ok_30ms : DialOutcome :=
  {| dial_failed := false; elapsed := 30999999 |}.

(** ** What the scan computes *)

Section Scan.

Context {F : Type} `{FastestAddrOps F}.

(** The loop variables after the body of [schedulePings] has run on [a]. *)
Definition scan_result (f : F) (st : option pingResult * bool)
    (a : netip.Addr) : option pingResult * bool :=
  match cacheFind f a with
  | None => (fst st, true)
  | Some cached =>
      if (status cached =? 0)
         && match fst st with
            | None => true
            | Some p => latencyMsec cached <? latency p
            end
      then (Some {| addrPort := netip.AddrPortFrom a 0;
                    latency := latencyMsec cached;
                    success := true |}, snd st)
      else st
  end.

(** The effects of the body on [a]. *)
Definition scan_events (f : F) (host : string) (a : netip.Addr)
    : list Event :=
  EvCacheFind a ::
  match cacheFind f a with
  | None => map (fun p => EvGo host (netip.AddrPortFrom a (uint16 p)))
                (pingPorts f)
  | Some _ => []
  end.

Definition uncached (f : F) (a : netip.Addr) : bool :=
  match cacheFind f a with None => true | Some _ => false end.

(** The state in which [pingAll] leaves the scan of two or more
    addresses. *)
Definition scanned (f : F) (host : string) (ips : list netip.Addr)
    (s : Coord) : Coord :=
  {| events := events s
               ++ EvMakeChan (List.length ips * List.length (pingPorts f))
               :: flat_map (scan_events f host) ips;
     pending := pending s |}.

(** [a] has a cache entry of success status with latency [l]. *)
Definition cached_ok (f : F) (a : netip.Addr) (l : Z) : Prop :=
  exists e, cacheFind f a = Some e /\ status e = 0 /\ latencyMsec e = l.

(** [a] has a cache entry of failure status. *)
Definition cached_failed (f : F) (a : netip.Addr) : Prop :=
  exists e, cacheFind f a = Some e /\ status e <> 0.

(** The best cached candidate of [ips], in words: nothing when no address
    has a success entry; otherwise the result built from the first address,
    in input order, whose success entry has the least latency. *)
Definition BestCached (f : F) (ips : list netip.Addr)
    (c : option pingResult) : Prop :=
  match c with
  | None => forall a l, In a ips -> ~ cached_ok f a l
  | Some p =>
      exists l1 a l2,
        ips = l1 ++ a :: l2 /\
        cached_ok f a (latency p) /\
        p = {| addrPort := netip.AddrPortFrom a 0;
               latency := latency p;
               success := true |} /\
        (forall b l, In b l1 -> cached_ok f b l -> latency p < l) /\
        (forall b l, In b l2 -> cached_ok f b l -> latency p <= l)
  end.

(** The final decision, in words: the lower-latency of the live winner and
    the cached candidate, the live one on equal latencies. *)
Definition lower_latency_live_first (live cand : option pingResult)
    : option pingResult :=
  match live, cand with
  | None, _ => cand
  | Some r, None => Some r
  | Some r, Some c => if latency c <? latency r then Some c else Some r
  end.

(** The outcomes of [select] in which the arbiter discards the results
    [fails] and then meets [last]. *)
Definition arrivals (fails : list pingResult) (last : selectCase)
    (rest : list selectCase) : list selectCase :=
  map RecvRes fails ++ last :: rest.

Definition all_failed (rs : list pingResult) : Prop :=
  Forall (fun r => success r = false) rs.

Definition recv_events (rs : list pingResult) : list Event :=
  map (fun r => EvSelect (RecvRes r)) rs.

(** [a] has a cache entry, of whatever status. *)
Definition cached_any (f : F) (a : netip.Addr) : Prop :=
  exists e, cacheFind f a = Some e.

(** The outcomes [sel] hold one on which the arbiter returns: the timer, or
    a successful result. *)
Definition decisive (sel : list selectCase) : Prop :=
  In AfterFired sel \/ exists r, In (RecvRes r) sel /\ success r = true.

(** The address-port pairs of the workers that a call on [ips] may start:
    an uncached address of the list with a configured port cut to 16
    bits. *)
Definition probe_target (f : F) (ips : list netip.Addr)
    (ap : netip.AddrPort) : Prop :=
  exists a p, In a ips /\ cacheFind f a = None /\ In p (pingPorts f) /\
              ap = netip.AddrPortFrom a (uint16 p).

End Scan.

(** ** The scan while the workers run *)

Module Conc.

(** What the cache answers at each lookup of the scan: [seen i a] is the
    answer that iteration [i] of the loop of [schedulePings] gets when it
    looks [a] up.  The workers started by the earlier iterations write the
    cache of the same receiver while the loop goes on (and so may any other
    user of the receiver), so the answers for one address may differ from
    one iteration to the next. *)
Definition View : Type := nat -> netip.Addr -> option cacheEntry.

Section Ping.

Context {F : Type} `{FastestAddrOps F}.

(** [f.cacheFind(ip)] in iteration [i], recorded as an effect. *)
Definition do_cacheFind (seen : View) (i : nat) (a : netip.Addr)
    : M (option cacheEntry) :=
  emit (EvCacheFind a) ;;; ret (seen i a).

(** The body of the loop of [schedulePings] in iteration [i], on the loop
    variables [(pr, scheduled)]. *)
Definition schedulePings_body (seen : View) (f : F) (host : string)
    (i : nat) (a : netip.Addr) (st : option pingResult * bool)
    : M (option pingResult * bool) :=
  let '(pr, scheduled) := st in
  cached <- do_cacheFind seen i a ;;
  match cached with
  | None =>
      forEach (pingPorts f)
        (fun p => go_pingDoTCP host (netip.AddrPortFrom a (uint16 p))) ;;;
      ret (pr, true)
  | Some cached =>
      if (status cached =? 0)
         && match pr with
            | None => true
            | Some p => latencyMsec cached <? latency p
            end
      then ret (Some {| addrPort := netip.AddrPortFrom a 0;
                        latency := latencyMsec cached;
                        success := true |}, scheduled)
      else ret (pr, scheduled)
  end.

Fixpoint schedulePings_loop (seen : View) (f : F) (host : string) (i : nat)
    (ips : list netip.Addr) (st : option pingResult * bool)
    : M (option pingResult * bool) :=
  match ips with
  | [] => ret st
  | a :: rest =>
      st' <- schedulePings_body seen f host i a st ;;
      schedulePings_loop seen f host (S i) rest st'
  end.

(** [schedulePings] returns the result with the fastest IP address from
    the cache, if it is found, and the [scheduled] flag. *)
Definition schedulePings (seen : View) (f : F) (ips : list netip.Addr)
    (host : string) : M (option pingResult * bool) :=
  schedulePings_loop seen f host 0 ips (None, false).

(** [pingAll] pings all ips concurrently and returns as soon as the
    fastest one is found or the timeout is exceeded. *)
Definition pingAll (seen : View) (f : F) (host : string)
    (ips : list netip.Addr) : M (option pingResult) :=
  let ipN := List.length ips in
  match ips with
  | [] => ret None
  | [ip0] => ret (Some {| addrPort := netip.AddrPortFrom ip0 0;
                          latency := 0;
                          success := true |})
  | _ =>
      emit (EvMakeChan (ipN * List.length (pingPorts f))) ;;;
      r <- schedulePings seen f ips host ;;
      let '(pr, scheduled) := r in
      if negb scheduled then ret pr
      else
        res <- firstSuccessRes f host ;;
        match res with
        | None => ret pr
        | Some res =>
            if match pr with
               | None => true
               | Some p => latency res <=? latency p
               end
            then ret (Some res)
            else ret pr
        end
  end.

End Ping.

End Conc.

Section Seen.

Context {F : Type} `{FastestAddrOps F}.

(** The view of a scan that no write disturbs: every lookup finds the cache
    as it stood when the call was made. *)
Definition at_call (f : F) : Conc.View := fun _ a => cacheFind f a.

(** The addresses of the list with the number of the iteration that looks
    them up. *)
Definition numbered (ips : list netip.Addr) : list (nat * netip.Addr) :=
  combine (seq 0 (List.length ips)) ips.

(** Iteration [i] finds for [a] an entry of success status with latency
    [l]. *)
Definition seen_ok (seen : Conc.View) (i : nat) (a : netip.Addr) (l : Z)
    : Prop :=
  exists e, seen i a = Some e /\ status e = 0 /\ latencyMsec e = l.

(** Some iteration of the scan of [ips] finds no entry for its address. *)
Definition some_unseen (seen : Conc.View) (ips : list netip.Addr) : Prop :=
  exists i a, In (i, a) (numbered ips) /\ seen i a = None.

(** The best cached candidate that the lookups of a scan give, in words:
    nothing when no lookup finds a success entry; otherwise the result built
    from the first lookup, in the order of the scan, whose success entry has
    the least latency. *)
Definition BestAmong (seen : Conc.View) (l : list (nat * netip.Addr))
    (c : option pingResult) : Prop :=
  match c with
  | None => forall i a lat, In (i, a) l -> ~ seen_ok seen i a lat
  | Some p =>
      exists l1 i a l2,
        l = l1 ++ (i, a) :: l2 /\
        seen_ok seen i a (latency p) /\
        p = {| addrPort := netip.AddrPortFrom a 0;
               latency := latency p;
               success := true |} /\
        (forall j b lat, In (j, b) l1 -> seen_ok seen j b lat ->
                         latency p < lat) /\
        (forall j b lat, In (j, b) l2 -> seen_ok seen j b lat ->
                         latency p <= lat)
  end.

Definition BestSeen (seen : Conc.View) (ips : list netip.Addr)
    (c : option pingResult) : Prop :=
  BestAmong seen (numbered ips) c.

(** The cache answers as it did when the call was made as long as every
    lookup so far has found an entry, that is, as long as the call has
    started no worker. *)
Definition undisturbed_before_go (f : F) (seen : Conc.View)
    (ips : list netip.Addr) : Prop :=
  forall i,
    (forall j b, (j < i)%nat -> In (j, b) (numbered ips) ->
                 seen j b <> None) ->
    forall a, seen i a = cacheFind f a.

(** The loop variables after iteration [i] on [a], and its effects. *)
Definition seen_result (seen : Conc.View) (st : option pingResult * bool)
    (ia : nat * netip.Addr) : option pingResult * bool :=
  match seen (fst ia) (snd ia) with
  | None => (fst st, true)
  | Some cached =>
      if (status cached =? 0)
         && match fst st with
            | None => true
            | Some p => latencyMsec cached <? latency p
            end
      then (Some {| addrPort := netip.AddrPortFrom (snd ia) 0;
                    latency := latencyMsec cached;
                    success := true |}, snd st)
      else st
  end.

Definition seen_events (seen : Conc.View) (f : F) (host : string)
    (ia : nat * netip.Addr) : list Event :=
  EvCacheFind (snd ia) ::
  match seen (fst ia) (snd ia) with
  | None => map (fun p => EvGo host (netip.AddrPortFrom (snd ia) (uint16 p)))
                (pingPorts f)
  | Some _ => []
  end.

(** The state in which [Conc.pingAll] leaves the scan of two or more
    addresses. *)
Definition seen_scanned (seen : Conc.View) (f : F) (host : string)
    (ips : list netip.Addr) (s : Coord) : Coord :=
  {| events := events s
               ++ EvMakeChan (List.length ips * List.length (pingPorts f))
               :: flat_map (seen_events seen f host) (numbered ips);
     pending := pending s |}.

End Seen.

(** The scan of [ipA; ipB; ipA] with nothing cached at the call, in which
    the worker started for [ipA] has recorded a success of latency 0 by the
    time the loop looks [ipA] up again. *)
Definition view_own_write : Conc.View :=
  fun i a =>
    if (2 <=? i)%nat && netip.Addr_eqb a ipA
    then Some {| status := 0; latencyMsec := 0 |}
    else None.

Definition res_ok_A80_1ms : pingResult :=
  {| addrPort := netip.AddrPortFrom ipA 80; latency := 1; success := true |}.

(** * Properties *)

(** ** Addresses *)

Lemma addrDetail_eqb_eq x y : netip.addrDetail_eqb x y = true <-> x = y.
Proof.
  destruct x, y; simpl; try (split; [discriminate | congruence]);
    try (split; reflexivity).
  rewrite String.eqb_eq. split; congruence.
Qed.

Lemma Addr_eqb_eq a b : netip.Addr_eqb a b = true <-> a = b.
Proof.
  destruct a as [h1 l1 d1], b as [h2 l2 d2]. unfold netip.Addr_eqb. simpl.
  rewrite !andb_true_iff, !Z.eqb_eq, addrDetail_eqb_eq.
  split; [intros [[-> ->] ->]; reflexivity | intros E; inversion E; auto].
Qed.

Lemma Addr_eqb_neq a b : netip.Addr_eqb a b = false <-> a <> b.
Proof.
  rewrite <- Addr_eqb_eq. destruct (netip.Addr_eqb a b); split; congruence.
Qed.

(** ** Running the scan *)

Section ScanFacts.

Context {F : Type} `{FastestAddrOps F}.

Lemma forEach_go host (g : Z -> netip.AddrPort) ports s :
  forEach ports (fun p => go_pingDoTCP host (g p)) s =
  (Some tt, {| events := events s ++ map (fun p => EvGo host (g p)) ports;
               pending := pending s |}).
Proof.
  revert s. induction ports as [|p ports IH]; intros s; simpl.
  - unfold ret. rewrite app_nil_r. destruct s; reflexivity.
  - unfold bind, go_pingDoTCP, emit. rewrite IH. simpl.
    rewrite <- app_assoc. reflexivity.
Qed.

Lemma schedulePings_body_run f host a st s :
  schedulePings_body f host a st s =
  (Some (scan_result f st a),
   {| events := events s ++ scan_events f host a; pending := pending s |}).
Proof.
  destruct st as [pr scheduled].
  unfold schedulePings_body, scan_result, scan_events, do_cacheFind.
  unfold bind at 1 2. unfold emit, ret. simpl.
  destruct (cacheFind f a) as [c|].
  - destruct (_ && _); reflexivity.
  - unfold bind. rewrite forEach_go. simpl. rewrite <- app_assoc.
    reflexivity.
Qed.

Lemma schedulePings_loop_run f host ips st s :
  schedulePings_loop f host ips st s =
  (Some (fold_left (scan_result f) ips st),
   {| events := events s ++ flat_map (scan_events f host) ips;
      pending := pending s |}).
Proof.
  revert st s. induction ips as [|a ips IH]; intros st s; simpl.
  - unfold ret. rewrite app_nil_r. destruct s; reflexivity.
  - unfold bind. rewrite schedulePings_body_run, IH. simpl.
    rewrite <- app_assoc. reflexivity.
Qed.

(** [pingAll] on two or more addresses: the scan, then the arbiter unless
    nothing was scheduled. *)
Lemma pingAll_run f host ips s :
  (2 <= List.length ips)%nat ->
  pingAll f host ips s =
  let st := fold_left (scan_result f) ips (None, false) in
  if negb (snd st) then (Some (fst st), scanned f host ips s)
  else match firstSuccessRes f host (scanned f host ips s) with
       | (Some live, s2) =>
           (Some (match live with
                  | None => fst st
                  | Some res =>
                      if match fst st with
                         | None => true
                         | Some p => latency res <=? latency p
                         end
                      then Some res else fst st
                  end), s2)
       | (None, s2) => (None, s2)
       end.
Proof.
  intros Hlen. destruct ips as [|a [|b ips]]; simpl in Hlen; try lia.
  unfold pingAll. set (l := a :: b :: ips).
  unfold bind at 1. unfold emit.
  unfold bind at 1. unfold schedulePings.
  rewrite schedulePings_loop_run. cbv zeta. cbn [events pending].
  rewrite <- app_assoc. cbn [app]. fold (scanned f host l s).
  destruct (fold_left (scan_result f) l (None, false))
    as [pr scheduled]. cbn [fst snd].
  destruct scheduled; cbn [negb]; [|reflexivity].
  unfold bind.
  destruct (firstSuccessRes f host (scanned f host l s))
    as [[[res|]|] s2]; try reflexivity.
  destruct pr as [p|]; [destruct (latency res <=? latency p)|]; reflexivity.
Qed.

Lemma fold_scan_snd f ips pr b :
  snd (fold_left (scan_result f) ips (pr, b)) = b || existsb (uncached f) ips.
Proof.
  revert pr b. induction ips as [|a ips IH]; intros pr b; simpl.
  - rewrite orb_false_r. reflexivity.
  - unfold scan_result at 2, uncached at 1. cbn [fst snd].
    destruct (cacheFind f a) as [c|].
    + destruct (_ && _); rewrite IH; reflexivity.
    + rewrite IH. cbn [orb]. rewrite orb_true_r. reflexivity.
Qed.

Lemma fold_scan_fst_indep f ips pr b b' :
  fst (fold_left (scan_result f) ips (pr, b)) =
  fst (fold_left (scan_result f) ips (pr, b')).
Proof.
  revert pr b b'. induction ips as [|a ips IH]; intros pr b b'; simpl; auto.
  unfold scan_result at 2 4. cbn [fst snd].
  destruct (cacheFind f a) as [c|]; [destruct (_ && _)|]; apply IH.
Qed.

End ScanFacts.

(** ** The candidate kept by the scan *)

Section Candidate.

Context {F : Type} `{FastestAddrOps F}.

Lemma cached_ok_fun f a l l' : cached_ok f a l -> cached_ok f a l' -> l = l'.
Proof.
  intros (e & E & _ & L) (e' & E' & _ & L'). congruence.
Qed.

Lemma BestCached_snoc f l pr b a :
  BestCached f l pr ->
  BestCached f (l ++ [a]) (fst (scan_result f (pr, b) a)).
Proof.
  intros HB. unfold scan_result. cbn [fst snd].
  destruct (cacheFind f a) as [c|] eqn:Ec.
  - destruct (status c =? 0) eqn:Es; cbn [andb].
    + apply Z.eqb_eq in Es.
      assert (Hok : cached_ok f a (latencyMsec c)) by (exists c; auto).
      destruct pr as [p|].
      * destruct (latencyMsec c <? latency p) eqn:El; cbn [fst].
        -- apply Z.ltb_lt in El.
           destruct HB as (l1 & x & l2 & -> & Hx & _ & H1 & H2).
           exists (l1 ++ x :: l2), a, []. cbn [latency].
           repeat split; auto.
           ++ intros b0 l0 Hin Hb0. apply in_app_or in Hin.
              destruct Hin as [Hin | [<- | Hin]].
              ** specialize (H1 _ _ Hin Hb0). lia.
              ** rewrite <- (cached_ok_fun _ _ _ _ Hx Hb0). lia.
              ** specialize (H2 _ _ Hin Hb0). lia.
           ++ intros b0 l0 [].
        -- apply Z.ltb_ge in El.
           destruct HB as (l1 & x & l2 & -> & Hx & Hp & H1 & H2).
           exists l1, x, (l2 ++ [a]). rewrite <- app_assoc.
           repeat split; auto.
           intros b0 l0 Hin Hb0. apply in_app_or in Hin.
           destruct Hin as [Hin | [<- | []]]; [eauto|].
           rewrite <- (cached_ok_fun _ _ _ _ Hok Hb0). lia.
      * cbn [fst]. exists l, a, []. cbn [latency].
        repeat split; auto.
        -- intros b0 l0 Hin Hb0. exfalso. exact (HB _ _ Hin Hb0).
        -- intros b0 l0 [].
    + cbn [fst]. apply Z.eqb_neq in Es.
      assert (Hno : forall l0, ~ cached_ok f a l0).
      { intros l0 (e & E & S0 & _). congruence. }
      destruct pr as [p|].
      * destruct HB as (l1 & x & l2 & -> & Hx & Hp & H1 & H2).
        exists l1, x, (l2 ++ [a]). rewrite <- app_assoc.
        repeat split; auto.
        intros b0 l0 Hin Hb0. apply in_app_or in Hin.
        destruct Hin as [Hin | [<- | []]]; [eauto|].
        exfalso. exact (Hno _ Hb0).
      * intros b0 l0 Hin Hb0. apply in_app_or in Hin.
        destruct Hin as [Hin | [<- | []]]; [exact (HB _ _ Hin Hb0)|].
        exact (Hno _ Hb0).
  - cbn [fst].
    assert (Hno : forall l0, ~ cached_ok f a l0).
    { intros l0 (e & E & _). congruence. }
    destruct pr as [p|].
    + destruct HB as (l1 & x & l2 & -> & Hx & Hp & H1 & H2).
      exists l1, x, (l2 ++ [a]). rewrite <- app_assoc.
      repeat split; auto.
      intros b0 l0 Hin Hb0. apply in_app_or in Hin.
      destruct Hin as [Hin | [<- | []]]; [eauto|].
      exfalso. exact (Hno _ Hb0).
    + intros b0 l0 Hin Hb0. apply in_app_or in Hin.
      destruct Hin as [Hin | [<- | []]]; [exact (HB _ _ Hin Hb0)|].
      exact (Hno _ Hb0).
Qed.

(** The candidate that the scan returns is the best cached candidate. *)
Lemma scan_BestCached f ips :
  BestCached f ips (fst (fold_left (scan_result f) ips (None, false))).
Proof.
  induction ips as [|a l IH] using rev_ind.
  - simpl. intros a l [].
  - rewrite fold_left_app. cbn [fold_left].
    destruct (fold_left (scan_result f) l (None, false)) as [pr b].
    apply BestCached_snoc. exact IH.
Qed.

Lemma BestCached_success f ips p :
  BestCached f ips (Some p) -> success p = true.
Proof.
  intros (l1 & a & l2 & _ & _ & -> & _). reflexivity.
Qed.

Lemma existsb_uncached f ips :
  existsb (uncached f) ips = true <->
  exists a, In a ips /\ cacheFind f a = None.
Proof.
  rewrite existsb_exists. unfold uncached.
  split; intros (a & Hin & Ha); exists a; split; auto;
    destruct (cacheFind f a); congruence.
Qed.

End Candidate.

(** ** The effects of the scan *)

Section Effects.

Context {F : Type} `{FastestAddrOps F}.

Lemma started_app e1 e2 : started (e1 ++ e2) = started e1 ++ started e2.
Proof.
  induction e1 as [|[n|a|h ap|c] e1 IH]; simpl; auto. rewrite IH. reflexivity.
Qed.

Lemma selects_app e1 e2 : selects (e1 ++ e2) = selects e1 ++ selects e2.
Proof.
  induction e1 as [|[n|a|h ap|c] e1 IH]; simpl; auto. rewrite IH. reflexivity.
Qed.

Lemma started_go host (g : Z -> netip.AddrPort) ports :
  started (map (fun p => EvGo host (g p)) ports) =
  map (fun p => (host, g p)) ports.
Proof. induction ports as [|p ports IH]; simpl; congruence. Qed.

Lemma selects_go host (g : Z -> netip.AddrPort) ports :
  selects (map (fun p => EvGo host (g p)) ports) = [].
Proof. induction ports as [|p ports IH]; simpl; congruence. Qed.

(** The workers that the scan of [ips] starts: one per configured port
    for every address without a cache entry. *)
Lemma started_scan f host ips :
  started (flat_map (scan_events f host) ips) =
  flat_map (fun a => if uncached f a
                     then map (fun p => (host, netip.AddrPortFrom a (uint16 p)))
                              (pingPorts f)
                     else []) ips.
Proof.
  induction ips as [|a ips IH]; simpl; auto.
  rewrite started_app, IH. f_equal.
  unfold uncached. destruct (cacheFind f a); [reflexivity|].
  apply started_go.
Qed.

Lemma selects_scan f host ips :
  selects (flat_map (scan_events f host) ips) = [].
Proof.
  induction ips as [|a ips IH]; simpl; auto.
  rewrite selects_app, IH, app_nil_r.
  destruct (cacheFind f a); [reflexivity|]. apply selects_go.
Qed.

Lemma started_scan_length f host ips :
  List.length (started (flat_map (scan_events f host) ips)) =
  (List.length (filter (uncached f) ips) * List.length (pingPorts f))%nat.
Proof.
  rewrite started_scan.
  induction ips as [|a ips IH]; simpl; auto.
  rewrite length_app, IH.
  destruct (uncached f a); simpl; [rewrite length_map|]; lia.
Qed.

Lemma started_scanned f host ips sel :
  started (events (scanned f host ips (init sel))) =
  started (flat_map (scan_events f host) ips).
Proof. reflexivity. Qed.

End Effects.

(** ** The arbiter *)

Section Arbiter.

Context {F : Type} `{FastestAddrOps F}.

Lemma firstSuccessRes_loop_fails fails sel evs :
  all_failed fails ->
  firstSuccessRes_loop (map RecvRes fails ++ sel) evs =
  firstSuccessRes_loop sel (evs ++ recv_events fails).
Proof.
  intros Hf. revert evs.
  induction Hf as [|r fails Hr _ IH]; intros evs; simpl.
  - rewrite app_nil_r. reflexivity.
  - rewrite Hr. cbn [negb]. rewrite IH, <- app_assoc. reflexivity.
Qed.

Lemma firstSuccessRes_loop_success sel evs r s' :
  firstSuccessRes_loop sel evs = (Some (Some r), s') -> success r = true.
Proof.
  revert evs. induction sel as [|[res|] sel IH]; intros evs; simpl.
  - discriminate.
  - destruct (success res) eqn:E; cbn [negb].
    + intros E'. inversion E'. subst. exact E.
    + apply IH.
  - discriminate.
Qed.

(** Whatever the arbiter does, it only consumes outcomes of [select]. *)
Lemma firstSuccessRes_loop_started sel evs :
  started (events (snd (firstSuccessRes_loop sel evs))) = started evs.
Proof.
  revert evs. induction sel as [|[res|] sel IH]; intros evs; simpl; auto.
  - destruct (negb (success res)); [rewrite IH|cbn [snd events]];
      rewrite started_app; simpl; apply app_nil_r.
  - rewrite started_app. simpl. apply app_nil_r.
Qed.

Lemma firstSuccessRes_winner (f : F) host fails res rest evs :
  all_failed fails -> success res = true ->
  firstSuccessRes f host
    {| events := evs; pending := arrivals fails (RecvRes res) rest |} =
  (Some (Some res),
   {| events := evs ++ recv_events fails ++ [EvSelect (RecvRes res)];
      pending := rest |}).
Proof.
  intros Hf Hres. unfold firstSuccessRes, arrivals. cbn [events pending].
  rewrite firstSuccessRes_loop_fails by assumption.
  simpl. rewrite Hres, <- app_assoc. reflexivity.
Qed.

Lemma firstSuccessRes_timeout (f : F) host fails rest evs :
  all_failed fails ->
  firstSuccessRes f host
    {| events := evs; pending := arrivals fails AfterFired rest |} =
  (Some None,
   {| events := evs ++ recv_events fails ++ [EvSelect AfterFired];
      pending := rest |}).
Proof.
  intros Hf. unfold firstSuccessRes, arrivals. cbn [events pending].
  rewrite firstSuccessRes_loop_fails by assumption.
  simpl. rewrite <- app_assoc. reflexivity.
Qed.

Lemma firstSuccessRes_waiting (f : F) host fails evs :
  all_failed fails ->
  firstSuccessRes f host {| events := evs; pending := map RecvRes fails |} =
  (None, {| events := evs ++ recv_events fails; pending := [] |}).
Proof.
  intros Hf. unfold firstSuccessRes. cbn [events pending].
  rewrite <- (app_nil_r (map RecvRes fails)).
  rewrite firstSuccessRes_loop_fails by assumption. reflexivity.
Qed.

End Arbiter.

(** C6. [firstSuccessRes], on any sequence of results arriving on the sink:
    it discards every result whose success flag is false and keeps waiting
    (with only such results it is still blocked); it returns the first
    result whose success flag is true; and it returns nil when the deadline
    fires before any successful result has arrived. *)
Theorem C6_firstSuccessRes_first_success_or_timeout
    {F : Type} `{FastestAddrOps F} (f : F) (host : string)
    (fails : list pingResult) (evs : list Event) :
  all_failed fails ->
  (forall res rest, success res = true ->
     firstSuccessRes f host
       {| events := evs; pending := arrivals fails (RecvRes res) rest |} =
     (Some (Some res),
      {| events := evs ++ recv_events fails ++ [EvSelect (RecvRes res)];
         pending := rest |})) /\
  (forall rest,
     firstSuccessRes f host
       {| events := evs; pending := arrivals fails AfterFired rest |} =
     (Some None,
      {| events := evs ++ recv_events fails ++ [EvSelect AfterFired];
         pending := rest |})) /\
  firstSuccessRes f host {| events := evs; pending := map RecvRes fails |} =
  (None, {| events := evs ++ recv_events fails; pending := [] |}).
Proof.
  intros Hf. repeat split.
  - intros res rest Hres. apply firstSuccessRes_winner; assumption.
  - intros rest. apply firstSuccessRes_timeout; assumption.
  - apply firstSuccessRes_waiting; assumption.
Qed.

Lemma C6_witness :
  firstSuccessRes fa_empty "example.org"
    (init [RecvRes res_fail_A; RecvRes res_ok_A; RecvRes res_ok_C]) =
  (Some (Some res_ok_A),
   {| events := [EvSelect (RecvRes res_fail_A); EvSelect (RecvRes res_ok_A)];
      pending := [RecvRes res_ok_C] |}) /\
  firstSuccessRes fa_empty "example.org"
    (init [RecvRes res_fail_A; AfterFired; RecvRes res_ok_C]) =
  (Some None,
   {| events := [EvSelect (RecvRes res_fail_A); EvSelect AfterFired];
      pending := [RecvRes res_ok_C] |}).
Proof.
  assert (Hf : all_failed [res_fail_A]) by (repeat constructor).
  destruct (C6_firstSuccessRes_first_success_or_timeout
              fa_empty "example.org" [res_fail_A] [] Hf) as (H1 & H2 & _).
  split.
  - exact (H1 res_ok_A [RecvRes res_ok_C] eq_refl).
  - exact (H2 [RecvRes res_ok_C]).
Defined.

(** C9. On a list of exactly one address [pingAll] returns that address at
    once, with port 0, the success flag set and the latency left at its zero
    value; on the empty list it returns nil.  In both cases the state is
    left as it was: no channel is made, no cache lookup is done, no worker is
    started and no [select] is entered. *)
Theorem C9_pingAll_short_lists
    {F : Type} `{FastestAddrOps F} (f : F) (host : string)
    (a : netip.Addr) (s : Coord) :
  pingAll f host [a] s =
    (Some (Some {| addrPort := netip.AddrPortFrom a 0;
                   latency := 0;
                   success := true |}), s) /\
  pingAll f host [] s = (Some None, s).
Proof. split; reflexivity. Qed.

(** C10. Every result that [pingAll] returns, other than nil, has its
    success flag set. *)
Theorem C10_pingAll_result_is_success
    {F : Type} `{FastestAddrOps F} (f : F) (host : string)
    (ips : list netip.Addr) (s : Coord) (r : pingResult) :
  fst (pingAll f host ips s) = Some (Some r) -> success r = true.
Proof.
  destruct ips as [|a [|b ips]].
  - discriminate.
  - simpl. intros E. inversion E. reflexivity.
  - rewrite pingAll_run by (simpl; lia). cbv zeta.
    pose proof (scan_BestCached f (a :: b :: ips)) as HB.
    destruct (fst (fold_left (scan_result f) (a :: b :: ips) (None, false)))
      as [p|] eqn:Ep.
    + apply BestCached_success in HB.
      destruct (negb _).
      * cbn [fst]. intros E. inversion E. subst. exact HB.
      * unfold firstSuccessRes.
        destruct (firstSuccessRes_loop _ _) as [[[res|]|] s2] eqn:Ea;
          cbn [fst]; try discriminate.
        -- apply firstSuccessRes_loop_success in Ea.
           destruct (latency res <=? latency p); intros E; inversion E;
             subst; assumption.
        -- intros E. inversion E. subst. exact HB.
    + destruct (negb _).
      * discriminate.
      * unfold firstSuccessRes.
        destruct (firstSuccessRes_loop _ _) as [[[res|]|] s2] eqn:Ea;
          cbn [fst]; try discriminate.
        apply firstSuccessRes_loop_success in Ea.
        intros E. inversion E. subst. exact Ea.
Qed.

Lemma C10_witness :
  fst (pingAll fa_B50 "example.org" [ipA; ipB] (init [AfterFired])) =
    Some (Some {| addrPort := netip.AddrPortFrom ipB 0;
                  latency := 50;
                  success := true |}) /\
  success {| addrPort := netip.AddrPortFrom ipB 0;
             latency := 50;
             success := true |} = true.
Proof.
  split; [reflexivity|].
  apply (C10_pingAll_result_is_success fa_B50 "example.org" [ipA; ipB]
           (init [AfterFired])).
  reflexivity.
Defined.

(** ** The decision of [pingAll] *)

Section Decision.

Context {F : Type} `{FastestAddrOps F}.

Lemma firstSuccessRes_loop_fst sel evs evs' :
  fst (firstSuccessRes_loop sel evs) = fst (firstSuccessRes_loop sel evs').
Proof.
  revert evs evs'. induction sel as [|[res|] sel IH]; intros evs evs'; simpl;
    auto.
  destruct (negb (success res)); [apply IH | reflexivity].
Qed.

Lemma firstSuccessRes_loop_pending sel evs evs' :
  pending (snd (firstSuccessRes_loop sel evs)) =
  pending (snd (firstSuccessRes_loop sel evs')).
Proof.
  revert evs evs'. induction sel as [|[res|] sel IH]; intros evs evs'; simpl;
    auto.
  destruct (negb (success res)); [apply IH | reflexivity].
Qed.

Lemma scheduled_iff f ips :
  snd (fold_left (scan_result f) ips (None, false)) = true <->
  exists a, In a ips /\ cacheFind f a = None.
Proof.
  rewrite fold_scan_snd. cbn [orb]. apply existsb_uncached.
Qed.

(** The result of [pingAll] when the scan has scheduled probes: the
    arbiter's result merged with the candidate. *)
Lemma pingAll_scheduled f host ips sel :
  (2 <= List.length ips)%nat ->
  (exists a, In a ips /\ cacheFind f a = None) ->
  let st := fold_left (scan_result f) ips (None, false) in
  let arb := firstSuccessRes f host (scanned f host ips (init sel)) in
  pingAll f host ips (init sel) =
  (match fst arb with
   | Some live => Some (lower_latency_live_first live (fst st))
   | None => None
   end, snd arb).
Proof.
  intros Hlen Hun. cbv zeta. rewrite pingAll_run by assumption. cbv zeta.
  apply scheduled_iff in Hun. rewrite Hun. cbn [negb].
  destruct (firstSuccessRes f host (scanned f host ips (init sel)))
    as [[[res|]|] s2]; cbn [fst snd]; try reflexivity.
  unfold lower_latency_live_first.
  destruct (fst (fold_left (scan_result f) ips (None, false))) as [p|];
    [|reflexivity].
  rewrite Z.leb_antisym. destruct (latency p <? latency res); reflexivity.
Qed.

(** The workers started by a call on two or more addresses are those of
    the scan, whether or not the arbiter has returned. *)
Lemma pingAll_started f host ips sel :
  (2 <= List.length ips)%nat ->
  started (events (snd (pingAll f host ips (init sel)))) =
  started (flat_map (scan_events f host) ips).
Proof.
  intros Hlen. rewrite pingAll_run by assumption. cbv zeta.
  destruct (negb _); [reflexivity|].
  pose proof (firstSuccessRes_loop_started
                (pending (scanned f host ips (init sel)))
                (events (scanned f host ips (init sel)))) as E.
  unfold firstSuccessRes.
  destruct (firstSuccessRes_loop _ _) as [[live|] s2]; exact E.
Qed.

Lemma firstSuccessRes_loop_events sel evs :
  exists more, events (snd (firstSuccessRes_loop sel evs)) = evs ++ more.
Proof.
  revert evs. induction sel as [|[res|] sel IH]; intros evs; simpl.
  - exists []. rewrite app_nil_r. reflexivity.
  - destruct (negb (success res)).
    + destruct (IH (evs ++ [EvSelect (RecvRes res)])) as [more E].
      exists (EvSelect (RecvRes res) :: more). rewrite E, <- app_assoc.
      reflexivity.
    + eexists. reflexivity.
  - eexists. reflexivity.
Qed.

(** The capacity of the channel made by a call on two or more
    addresses. *)
Lemma pingAll_made_cap f host ips sel :
  (2 <= List.length ips)%nat ->
  made_cap (events (snd (pingAll f host ips (init sel)))) =
  (List.length ips * List.length (pingPorts f))%nat.
Proof.
  intros Hlen. rewrite pingAll_run by assumption. cbv zeta.
  destruct (negb _); [reflexivity|].
  destruct (firstSuccessRes_loop_events
              (pending (scanned f host ips (init sel)))
              (events (scanned f host ips (init sel)))) as [more E].
  unfold firstSuccessRes.
  destruct (firstSuccessRes_loop _ _) as [[live|] s2]; cbn [snd] in *;
    rewrite E; reflexivity.
Qed.

Lemma pingAll_timeout f host ips fails rest :
  (2 <= List.length ips)%nat ->
  (exists a, In a ips /\ cacheFind f a = None) ->
  all_failed fails ->
  pingAll f host ips (init (arrivals fails AfterFired rest)) =
  (Some (fst (fold_left (scan_result f) ips (None, false))),
   {| events := events (scanned f host ips (init []))
                ++ recv_events fails ++ [EvSelect AfterFired];
      pending := rest |}).
Proof.
  intros Hlen Hun Hf. rewrite pingAll_scheduled by assumption.
  cbv zeta. unfold scanned. cbn [init events pending].
  rewrite firstSuccessRes_timeout by assumption. reflexivity.
Qed.

End Decision.

(** C5. On a list of two or more addresses that all have a cache entry of
    success status, [pingAll] starts no worker and does not enter the
    arbiter's [select]; it returns the result built from the address of
    least cached latency, the first such address in input order. *)
Theorem C5_all_cached_returns_first_minimum
    {F : Type} `{FastestAddrOps F} (f : F) (host : string)
    (ips : list netip.Addr) (sel : list selectCase) :
  (2 <= List.length ips)%nat ->
  (forall a, In a ips -> exists l, cached_ok f a l) ->
  let out := pingAll f host ips (init sel) in
  started (events (snd out)) = [] /\
  selects (events (snd out)) = [] /\
  pending (snd out) = sel /\
  exists l1 a l2 l,
    ips = l1 ++ a :: l2 /\
    cached_ok f a l /\
    fst out = Some (Some {| addrPort := netip.AddrPortFrom a 0;
                            latency := l;
                            success := true |}) /\
    (forall b lb, In b ips -> cached_ok f b lb -> l <= lb) /\
    (forall b lb, In b l1 -> cached_ok f b lb -> l < lb).
Proof.
  intros Hlen Hall out.
  assert (Hsch : snd (fold_left (scan_result f) ips (None, false)) = false).
  { destruct (snd (fold_left (scan_result f) ips (None, false))) eqn:E; auto.
    apply scheduled_iff in E. destruct E as (a & Hin & Ha).
    destruct (Hall a Hin) as (l & e & He & _). congruence. }
  assert (Hst : started (flat_map (scan_events f host) ips) = []).
  { rewrite started_scan. clear Hlen Hsch out.
    induction ips as [|a ips IH]; simpl; auto.
    rewrite IH by (intros; apply Hall; right; assumption).
    destruct (Hall a (or_introl eq_refl)) as (l & e & He & _).
    unfold uncached. rewrite He. reflexivity. }
  subst out. rewrite pingAll_run by assumption. cbv zeta.
  rewrite Hsch. cbn [negb fst snd].
  split; [exact Hst|]. split; [apply selects_scan|]. split; [reflexivity|].
  pose proof (scan_BestCached f ips) as HB.
  destruct (fst (fold_left (scan_result f) ips (None, false))) as [p|].
  - destruct HB as (l1 & a & l2 & Hips & Ha & Hp & H1 & H2).
    exists l1, a, l2, (latency p). repeat split; auto.
    + rewrite Hp at 1. reflexivity.
    + intros b lb Hin Hb. rewrite Hips in Hin. apply in_app_or in Hin.
      destruct Hin as [Hin | [<- | Hin]].
      * specialize (H1 _ _ Hin Hb). lia.
      * rewrite (cached_ok_fun _ _ _ _ Ha Hb). lia.
      * exact (H2 _ _ Hin Hb).
  - exfalso. destruct ips as [|a ips]; [simpl in Hlen; lia|].
    destruct (Hall a (or_introl eq_refl)) as (l & Hl).
    exact (HB a l (or_introl eq_refl) Hl).
Qed.

Lemma C5_witness :
  fst (pingAll fa_tie "example.org" [ipA; ipB; ipC] (init [])) =
    Some (Some {| addrPort := netip.AddrPortFrom ipB 0;
                  latency := 20;
                  success := true |}) /\
  started (events (snd (pingAll fa_tie "example.org" [ipA; ipB; ipC]
                          (init [])))) = [].
Proof.
  split; [reflexivity|].
  apply (C5_all_cached_returns_first_minimum fa_tie "example.org"
           [ipA; ipB; ipC] []).
  - simpl. lia.
  - intros a [<- | [<- | [<- | []]]].
    + exists 50, {| status := 0; latencyMsec := 50 |}. repeat split.
    + exists 20, {| status := 0; latencyMsec := 20 |}. repeat split.
    + exists 20, {| status := 0; latencyMsec := 20 |}. repeat split.
Defined.

(** C1, as stated, fails.  A call on two addresses, one with a failure
    entry and one with a success entry, starts no worker at all and returns
    the cached address; so does a call on a single uncached address, and so
    does a call on uncached addresses when no port is configured. *)
Lemma C1_counterexample :
  (cached_failed fa_Afailed_B50 ipA /\
   forall sel,
     pingAll fa_Afailed_B50 "example.org" [ipA; ipB] (init sel) =
     (Some (Some {| addrPort := netip.AddrPortFrom ipB 0;
                    latency := 50;
                    success := true |}),
      {| events := [EvMakeChan 4; EvCacheFind ipA; EvCacheFind ipB];
         pending := sel |}) /\
     started (events (snd (pingAll fa_Afailed_B50 "example.org" [ipA; ipB]
                             (init sel)))) = []) /\
  (cacheFind fa_empty ipA = None /\
   forall sel,
     started (events (snd (pingAll fa_empty "example.org" [ipA] (init sel))))
     = []) /\
  (cacheFind fa_noports ipA = None /\
   forall sel,
     started (events (snd (pingAll fa_noports "example.org" [ipA; ipB]
                             (init sel)))) = []).
Proof.
  split; [split | split; split].
  - exists {| status := 1; latencyMsec := 0 |}. split; [reflexivity|discriminate].
  - intros sel. split; reflexivity.
  - reflexivity.
  - intros sel. reflexivity.
  - reflexivity.
  - intros sel. rewrite pingAll_started by (simpl; lia). reflexivity.
Qed.

(** ** Addresses with a failure entry *)

Section Failed.

Context {F : Type} `{FastestAddrOps F}.





End Failed.



(** ** The race between the workers and the receiver *)

Section RaceFacts.

Context {F : Type} `{FastestAddrOps F}.

Lemma pingDoTCP_one_send host ap d :
  List.length (filter is_send (pingDoTCP host ap d)) = 1%nat.
Proof.
  unfold pingDoTCP. simpl. destruct (negb (dial_failed d)); reflexivity.
Qed.

Lemma sends_left_cons acts ws :
  sends_left (acts :: ws) =
  (List.length (filter is_send acts) + sends_left ws)%nat.
Proof.
  unfold sends_left. simpl. rewrite filter_app, length_app. reflexivity.
Qed.

Lemma sends_left_set_nth ws i a rest :
  nth_error ws i = Some (a :: rest) ->
  (sends_left (set_nth i rest ws) + (if is_send a then 1 else 0))%nat =
  sends_left ws.
Proof.
  revert i. induction ws as [|w ws IH]; intros [|i]; simpl; try discriminate.
  - intros E. inversion E. subst w. rewrite !sends_left_cons. simpl.
    destruct (is_send a); simpl; lia.
  - intros E. rewrite !sends_left_cons. rewrite <- (IH _ E). lia.
Qed.

Lemma sends_left_nth ws i acts :
  nth_error ws i = Some acts ->
  (List.length (filter is_send acts) <= sends_left ws)%nat.
Proof.
  revert i. induction ws as [|w ws IH]; intros [|i]; simpl; try discriminate.
  - intros E. inversion E. subst w. rewrite sends_left_cons. lia.
  - intros E. rewrite sends_left_cons. specialize (IH _ E). lia.
Qed.

Lemma exec_cap a (sh sh' : Shared (F := F)) :
  exec a sh = Some sh' -> resCh_cap sh' = resCh_cap sh.
Proof.
  destruct a; simpl.
  - destruct (_ <? _)%nat; [|discriminate]. intros E. inversion E.
    reflexivity.
  - intros E. inversion E. reflexivity.
  - intros E. inversion E. reflexivity.
Qed.

Lemma step_has_room r r' : step r r' -> has_room r -> has_room r'.
Proof.
  unfold has_room. intros Hs Hr. destruct Hs as [r i a rest sh' Hn He | r res buf' Hb].
  - cbn [shared workers]. pose proof (sends_left_set_nth _ _ _ _ Hn) as E.
    pose proof (exec_cap _ _ _ He) as Ec. rewrite Ec.
    destruct a; simpl in He, E.
    + destruct (_ <? _)%nat; [|discriminate]. inversion He. subst sh'.
      cbn [resCh_buf]. rewrite length_app. simpl. lia.
    + inversion He. subst sh'. cbn [resCh_buf]. lia.
    + inversion He. subst sh'. cbn [resCh_buf]. lia.
  - cbn [shared workers resCh_buf resCh_cap]. rewrite Hb in Hr.
    simpl in Hr. lia.
Qed.

Lemma reachable_has_room r0 r :
  has_room r0 -> reachable r0 r -> has_room r.
Proof.
  intros H0 Hr. induction Hr as [|r r' _ IH Hs]; auto.
  exact (step_has_room _ _ Hs IH).
Qed.

(** With room for its sends, a worker runs to its end whatever the
    receiver does. *)
Lemma exec_with_room a (sh : Shared (F := F)) :
  (List.length (resCh_buf sh) + (if is_send a then 1 else 0)
   <= resCh_cap sh)%nat ->
  exists sh', exec a sh = Some sh'.
Proof.
  destruct a; simpl; intros Hr; try (eexists; reflexivity).
  destruct (Nat.ltb_spec (List.length (resCh_buf sh)) (resCh_cap sh));
    [eexists; reflexivity | lia].
Qed.

Lemma sends_left_workers (dials : nat -> DialOutcome)
    (l : list (nat * (string * netip.AddrPort))) :
  sends_left
    (map (fun '(i, (host, ap)) => pingDoTCP host ap (dials i)) l) =
  List.length l.
Proof.
  induction l as [|[i [h ap]] l IH]; [reflexivity|].
  cbn [map]. rewrite sends_left_cons, pingDoTCP_one_send, IH. reflexivity.
Qed.

Lemma race_of_sends_left (f : F) evs dials :
  sends_left (workers (race_of f evs dials)) = List.length (started evs).
Proof.
  unfold race_of. cbn [workers]. rewrite sends_left_workers.
  rewrite length_combine, length_seq. apply Nat.min_id.
Qed.

Lemma filter_length_le {A} (p : A -> bool) l :
  (List.length (filter p l) <= List.length l)%nat.
Proof.
  induction l as [|x l IH]; simpl; auto. destruct (p x); simpl; lia.
Qed.

(** The channel that a call makes holds the sends of all the workers that
    the call starts. *)
Lemma pingAll_cap_bounds_started (f : F) host ips sel :
  (List.length (started (events (snd (pingAll f host ips (init sel)))))
   <= made_cap (events (snd (pingAll f host ips (init sel)))))%nat.
Proof.
  destruct ips as [|a [|b ips]]; [simpl; lia | simpl; lia |].
  rewrite pingAll_started, pingAll_made_cap by (simpl; lia).
  rewrite started_scan_length.
  apply Nat.mul_le_mono_r. apply filter_length_le.
Qed.

Lemma race_of_has_room (f : F) host ips sel dials :
  has_room (race_of f (events (snd (pingAll f host ips (init sel)))) dials).
Proof.
  unfold has_room. rewrite race_of_sends_left.
  cbn [race_of shared resCh_buf resCh_cap List.length plus].
  apply pingAll_cap_bounds_started.
Qed.

Lemma next_effect_enabled (r : Race (F := F)) i a rest :
  has_room r -> nth_error (workers r) i = Some (a :: rest) ->
  exists sh', exec a (shared r) = Some sh'.
Proof.
  unfold has_room. intros Hr Hn. apply exec_with_room.
  pose proof (sends_left_nth _ _ _ Hn) as Hle. simpl in Hle.
  destruct (is_send a); simpl in Hle; lia.
Qed.

End RaceFacts.

(** ** The probe worker *)

(** The latency that a worker reports: whole milliseconds, rounded down. *)
Lemma latency_floor e :
  0 <= e < 2 ^ 63 -> uint_of_int64 (Milliseconds e) = e / 1000000.
Proof.
  intros He. unfold uint_of_int64, Milliseconds, UintSize.
  rewrite Z.quot_div_nonneg by lia.
  apply Z.mod_small. split.
  - apply Z.div_pos; lia.
  - apply Z.div_lt_upper_bound; lia.
Qed.

(** C7. In the race that a call sets up, take any state reached and any
    worker that has not yet finished its dial, with an elapsed time that a
    clock can measure.  Run on its own, without the receiver taking anything
    out of the channel, the worker goes through: it leaves its result in the
    channel and it updates the cache under the address alone (unmapped, the
    port playing no part), with a success entry carrying the elapsed time in
    whole milliseconds rounded down when the dial succeeded, with a failure
    entry when it failed. *)
Theorem C7_worker_records_outcome_in_cache
    {F : Type} `{FastestAddrOps F} (f : F) (host : string)
    (ips : list netip.Addr) (sel : list selectCase)
    (dials : nat -> DialOutcome) (r : Race) (i : nat)
    (h : string) (a : netip.Addr) (p : Z) (d : DialOutcome) :
  reachable (race_of f (events (snd (pingAll f host ips (init sel)))) dials) r ->
  nth_error (workers r) i = Some (pingDoTCP h (netip.AddrPortFrom a p) d) ->
  0 <= elapsed d < 2 ^ 63 ->
  let ms := elapsed d / 1000000 in
  run_worker (pingDoTCP h (netip.AddrPortFrom a p) d) (shared r) =
  Some {| resCh_buf := resCh_buf (shared r)
                       ++ [{| addrPort := netip.AddrPortFrom a p;
                              latency := ms;
                              success := negb (dial_failed d) |}];
          resCh_cap := resCh_cap (shared r);
          fa := if dial_failed d
                then cacheAddFailure (fa (shared r)) (netip.Unmap a)
                else cacheAddSuccessful (fa (shared r)) (netip.Unmap a) ms |}.
Proof.
  intros Hreach Hn He ms.
  pose proof (reachable_has_room _ _ (race_of_has_room f host ips sel dials)
                Hreach) as Hroom.
  pose proof (sends_left_nth _ _ _ Hn) as Hle.
  rewrite pingDoTCP_one_send in Hle. unfold has_room in Hroom.
  unfold pingDoTCP. rewrite latency_floor by assumption. fold ms.
  cbn [run_worker exec].
  destruct (Nat.ltb_spec (List.length (resCh_buf (shared r)))
                         (resCh_cap (shared r))) as [_|Hfull]; [|lia].
  cbn [netip.AddrOf netip.AddrPortFrom netip.ip].
  destruct (dial_failed d); reflexivity.
Qed.

Lemma C7_witness :
  run_worker (pingDoTCP "example.org" (netip.AddrPortFrom ipA_mapped 80)
                dial_ok_30ms)
    (shared (race_of
               (mkFastestAddr [80; 443] [])
               (events (snd (pingAll (mkFastestAddr [80; 443] []) "example.org"
                               [ipA_mapped; ipB] (init []))))
               (fun _ => dial_ok_30ms))) =
  Some {| resCh_buf := [{| addrPort := netip.AddrPortFrom ipA_mapped 80;
                           latency := 30;
                           success := true |}];
          resCh_cap := 4;
          fa := mkFastestAddr [80; 443]
                  [(ipA, {| status := 0; latencyMsec := 30 |})] |}.
Proof.
  refine (C7_worker_records_outcome_in_cache
            (mkFastestAddr [80; 443] []) "example.org" [ipA_mapped; ipB] []
            (fun _ => dial_ok_30ms)
            (race_of (mkFastestAddr [80; 443] [])
               (events (snd (pingAll (mkFastestAddr [80; 443] [])
                               "example.org" [ipA_mapped; ipB] (init []))))
               (fun _ => dial_ok_30ms))
            0%nat "example.org" ipA_mapped 80 dial_ok_30ms
            (reach_refl _) eq_refl _).
  unfold dial_ok_30ms. simpl. lia.
Defined.

(** C8, as stated, fails: the capacity of the channel is not the number of
    probes scheduled.  With one address cached and one not, and two ports,
    the channel has capacity four and two workers are started. *)
Lemma C8_counterexample :
  made_cap (events (snd (pingAll fa_B50 "example.org" [ipA; ipB] (init []))))
    = 4%nat /\
  List.length
    (started (events (snd (pingAll fa_B50 "example.org" [ipA; ipB] (init [])))))
    = 2%nat.
Proof. split; reflexivity. Qed.

(** C8, amended.  Each probe worker sends exactly one result to the result
    sink.  The sink is made with capacity the number of addresses times the
    number of ports, which is at least the number of probes scheduled for
    the call; so in every state that the race reaches, whatever the receiver
    has or has not taken out, the next effect of every worker, its send
    included, can happen at once. *)
Theorem C8_sends_never_block
    {F : Type} `{FastestAddrOps F} (f : F) (host : string)
    (ips : list netip.Addr) (sel : list selectCase)
    (dials : nat -> DialOutcome) :
  let evs := events (snd (pingAll f host ips (init sel))) in
  (forall h ap d, List.length (filter is_send (pingDoTCP h ap d)) = 1%nat) /\
  ((2 <= List.length ips)%nat ->
   made_cap evs = (List.length ips * List.length (pingPorts f))%nat) /\
  (List.length (started evs) <= made_cap evs)%nat /\
  forall r, reachable (race_of f evs dials) r ->
    forall i a rest, nth_error (workers r) i = Some (a :: rest) ->
      exists sh', exec a (shared r) = Some sh'.
Proof.
  cbv zeta. split; [|split; [|split]].
  - intros h ap d. apply pingDoTCP_one_send.
  - intros Hlen. apply pingAll_made_cap. assumption.
  - apply pingAll_cap_bounds_started.
  - intros r Hreach i a rest Hn.
    apply (next_effect_enabled r i a rest); [|assumption].
    exact (reachable_has_room _ _ (race_of_has_room f host ips sel dials)
             Hreach).
Qed.

Lemma C8_witness :
  made_cap (events (snd (pingAll fa_B50 "example.org" [ipA; ipB] (init []))))
    = (2 * 2)%nat /\
  exists sh',
    exec (ActSend {| addrPort := netip.AddrPortFrom ipA 80;
                     latency := 30;
                     success := true |})
         (shared (race_of fa_B50
                    (events (snd (pingAll fa_B50 "example.org" [ipA; ipB]
                                    (init []))))
                    (fun _ => dial_ok_30ms)))
    = Some sh'.
Proof.
  destruct (C8_sends_never_block fa_B50 "example.org" [ipA; ipB] []
              (fun _ => dial_ok_30ms)) as (_ & Hcap & _ & Hrun).
  split.
  - apply Hcap. simpl. lia.
  - apply (Hrun _ (reach_refl _) 0%nat _
             [ActCacheAddSuccessful (netip.Unmap ipA) 30]).
    reflexivity.
Defined.

(** * Further properties of the scan, the decision and the race *)

Section ScanMore.

Context {F : Type} `{FastestAddrOps F}.

Lemma looked_up_app e1 e2 :
  looked_up (e1 ++ e2) = looked_up e1 ++ looked_up e2.
Proof.
  induction e1 as [|[n|a|h ap|c] e1 IH]; simpl; auto. rewrite IH. reflexivity.
Qed.

Lemma looked_up_go host (g : Z -> netip.AddrPort) ports :
  looked_up (map (fun p => EvGo host (g p)) ports) = [].
Proof. induction ports as [|p ports IH]; simpl; congruence. Qed.

Lemma looked_up_scan f host ips :
  looked_up (flat_map (scan_events f host) ips) = ips.
Proof.
  induction ips as [|a ips IH]; simpl; auto.
  rewrite looked_up_app, IH. f_equal.
  destruct (cacheFind f a); [reflexivity|].
  rewrite looked_up_go. reflexivity.
Qed.


Lemma BestCached_from_entry f ips c :
  BestCached f ips (Some c) ->
  exists a, In a ips /\ cached_ok f a (latency c) /\
            c = {| addrPort := netip.AddrPortFrom a 0;
                   latency := latency c;
                   success := true |}.
Proof.
  intros (l1 & a & l2 & -> & Ha & Hc & _). exists a.
  split; [apply in_or_app; right; left; reflexivity | auto].
Qed.

Lemma not_scheduled_iff f ips :
  snd (fold_left (scan_result f) ips (None, false)) = false <->
  forall a, In a ips -> cached_any f a.
Proof.
  rewrite fold_scan_snd. cbn [orb]. split.
  - intros E a Hin. unfold cached_any.
    destruct (cacheFind f a) as [e|] eqn:Ea; [eauto|].
    assert (existsb (uncached f) ips = true) as E'.
    { apply existsb_uncached. eauto. }
    congruence.
  - intros Hall. destruct (existsb (uncached f) ips) eqn:E; auto.
    apply existsb_uncached in E. destruct E as (a & Hin & Ha).
    destruct (Hall a Hin) as (e & He). congruence.
Qed.

End ScanMore.

(** X3. On two or more addresses that all have a cache entry, of success or
    of failure status, [pingAll] returns at once: it starts no worker,
    enters no [select] and returns the best cached candidate.  When all the
    entries are failure entries it returns nil. *)
Theorem X3_pingAll_nothing_uncached_returns_at_once
    {F : Type} `{FastestAddrOps F} (f : F) (host : string)
    (ips : list netip.Addr) (sel : list selectCase) :
  (2 <= List.length ips)%nat ->
  (forall a, In a ips -> cached_any f a) ->
  exists cand,
    BestCached f ips cand /\
    fst (pingAll f host ips (init sel)) = Some cand /\
    started (events (snd (pingAll f host ips (init sel)))) = [] /\
    selects (events (snd (pingAll f host ips (init sel)))) = [] /\
    pending (snd (pingAll f host ips (init sel))) = sel /\
    ((forall a, In a ips -> cached_failed f a) -> cand = None).
Proof.
  intros Hlen Hall.
  exists (fst (fold_left (scan_result f) ips (None, false))).
  pose proof (scan_BestCached f ips) as HB.
  split; [exact HB|].
  rewrite pingAll_run by assumption. cbv zeta.
  pose proof (proj2 (not_scheduled_iff f ips) Hall) as Hsch.
  rewrite Hsch. cbn [negb fst snd].
  split; [reflexivity|]. split.
  { cbn [scanned init events app started]. rewrite started_scan.
    clear HB Hlen Hsch.
    induction ips as [|a ips IH]; simpl; auto.
    rewrite IH by (intros; apply Hall; right; assumption).
    destruct (Hall a (or_introl eq_refl)) as (e & He).
    unfold uncached. rewrite He. reflexivity. }
  split; [apply selects_scan|]. split; [reflexivity|].
  intros Hfail.
  destruct (fst (fold_left (scan_result f) ips (None, false))) as [c|];
    [|reflexivity].
  apply BestCached_from_entry in HB.
  destruct HB as (a & Hin & (e & He & Hs & _) & _).
  destruct (Hfail a Hin) as (e' & He' & Hs'). congruence.
Qed.

Lemma X3_witness :
  exists cand,
    BestCached fa_all_failed [ipA; ipB] cand /\
    fst (pingAll fa_all_failed "example.org" [ipA; ipB] (init [])) = Some cand /\
    started (events (snd (pingAll fa_all_failed "example.org" [ipA; ipB]
                            (init [])))) = [] /\
    selects (events (snd (pingAll fa_all_failed "example.org" [ipA; ipB]
                            (init [])))) = [] /\
    pending (snd (pingAll fa_all_failed "example.org" [ipA; ipB] (init [])))
      = [] /\
    ((forall a, In a [ipA; ipB] -> cached_failed fa_all_failed a) ->
     cand = None).
Proof.
  apply (X3_pingAll_nothing_uncached_returns_at_once fa_all_failed
           "example.org" [ipA; ipB] []).
  - simpl. lia.
  - intros a [<- | [<- | []]]; eexists; reflexivity.
Defined.

Section ArbiterMore.

Context {F : Type} `{FastestAddrOps F}.

Lemma firstSuccessRes_loop_decisive sel evs :
  fst (firstSuccessRes_loop sel evs) <> None <-> decisive sel.
Proof.
  revert evs. induction sel as [|[res|] sel IH]; intros evs; simpl.
  - split; [congruence|]. intros [[] | (r & [] & _)].
  - destruct (success res) eqn:E; cbn [negb fst].
    + split; [|discriminate]. intros _. right. exists res.
      split; [left; reflexivity | exact E].
    + rewrite IH. unfold decisive. split.
      * intros [Ha | (r & Hin & Hr)]; [left; right; exact Ha|].
        right. exists r. split; [right; exact Hin | exact Hr].
      * intros [[Ha | Ha] | (r & [Hin | Hin] & Hr)].
        -- discriminate.
        -- left. exact Ha.
        -- inversion Hin. subst. congruence.
        -- right. exists r. auto.
  - split; [|discriminate]. intros _. left. left. reflexivity.
Qed.

Lemma firstSuccessRes_loop_received sel evs r :
  fst (firstSuccessRes_loop sel evs) = Some (Some r) -> In (RecvRes r) sel.
Proof.
  revert evs. induction sel as [|[res|] sel IH]; intros evs; simpl.
  - discriminate.
  - destruct (negb (success res)).
    + intros E. right. exact (IH _ E).
    + cbn [fst]. intros E. inversion E. left. reflexivity.
  - discriminate.
Qed.

Lemma firstSuccessRes_loop_success_fst sel evs r :
  fst (firstSuccessRes_loop sel evs) = Some (Some r) -> success r = true.
Proof.
  destruct (firstSuccessRes_loop sel evs) as [o s'] eqn:E. cbn [fst].
  intros ->. exact (firstSuccessRes_loop_success _ _ _ _ E).
Qed.

(** What [pingAll] returns on two or more addresses, read off the scan and
    the arbiter's result. *)
Lemma pingAll_fst f host ips sel :
  (2 <= List.length ips)%nat ->
  fst (pingAll f host ips (init sel)) =
  let st := fold_left (scan_result f) ips (None, false) in
  if snd st
  then match fst (firstSuccessRes_loop sel
                    (events (scanned f host ips (init sel)))) with
       | Some live => Some (lower_latency_live_first live (fst st))
       | None => None
       end
  else Some (fst st).
Proof.
  intros Hlen. cbv zeta.
  destruct (snd (fold_left (scan_result f) ips (None, false))) eqn:E.
  - rewrite pingAll_scheduled by (try apply scheduled_iff; assumption).
    reflexivity.
  - rewrite pingAll_run by assumption. cbv zeta. rewrite E. reflexivity.
Qed.

End ArbiterMore.

(** X4. A call to [pingAll] is left waiting exactly when it has two or more
    addresses, one of them without cache entry, and the outcomes of its
    [select] hold neither the timer nor a successful result; so every call
    returns once the timer has fired. *)
Theorem X4_pingAll_waits_iff_undecided
    {F : Type} `{FastestAddrOps F} (f : F) (host : string)
    (ips : list netip.Addr) (sel : list selectCase) :
  fst (pingAll f host ips (init sel)) = None <->
  (2 <= List.length ips)%nat /\
  (exists a, In a ips /\ cacheFind f a = None) /\
  ~ decisive sel.
Proof.
  destruct ips as [|a [|b ips]].
  - simpl. split; [discriminate | intros (Hl & _); lia].
  - simpl. split; [discriminate | intros (Hl & _); lia].
  - set (l := a :: b :: ips). assert (Hlen : (2 <= List.length l)%nat)
      by (simpl; lia).
    rewrite pingAll_fst by assumption. cbv zeta.
    rewrite <- scheduled_iff.
    rewrite <- (firstSuccessRes_loop_decisive sel
                  (events (scanned f host l (init sel)))).
    destruct (snd (fold_left (scan_result f) l (None, false))).
    + destruct (fst (firstSuccessRes_loop sel _)) as [live|].
      * split; [discriminate|]. intros (_ & _ & Hn). exfalso. apply Hn.
        discriminate.
      * split; [|reflexivity]. intros _. repeat split; auto.
    + split; [discriminate|]. intros (_ & E & _). discriminate.
Qed.

Lemma X4_witness :
  fst (pingAll fa_A50 "example.org" [ipA; ipB] (init [RecvRes res_fail_B]))
    = None /\
  fst (pingAll fa_A50 "example.org" [ipA; ipB]
         (init [RecvRes res_fail_B; AfterFired])) <> None.
Proof.
  split.
  - apply (proj2 (X4_pingAll_waits_iff_undecided fa_A50 "example.org"
                    [ipA; ipB] [RecvRes res_fail_B])).
    split; [simpl; lia|]. split.
    + exists ipB. split; [simpl; auto | reflexivity].
    + intros [[E | []] | (r & [E | []] & Hr)]; [discriminate|].
      inversion E. subst r. discriminate.
  - intros E.
    apply (proj1 (X4_pingAll_waits_iff_undecided fa_A50 "example.org"
                    [ipA; ipB] [RecvRes res_fail_B; AfterFired])) in E.
    destruct E as (_ & _ & Hn). apply Hn. left. right. left. reflexivity.
Defined.



Section RaceMore.

Context {F : Type} `{FastestAddrOps F}.

Lemma run_worker_with_room acts (sh : Shared (F := F)) :
  (List.length (resCh_buf sh) + List.length (filter is_send acts)
   <= resCh_cap sh)%nat ->
  exists sh',
    run_worker acts sh = Some sh' /\
    List.length (resCh_buf sh') =
      (List.length (resCh_buf sh) + List.length (filter is_send acts))%nat /\
    resCh_cap sh' = resCh_cap sh.
Proof.
  revert sh. induction acts as [|a acts IH]; intros sh Hroom; simpl.
  - exists sh. repeat split; lia.
  - destruct a as [res|a l|a]; simpl in Hroom |- *.
    + destruct (Nat.ltb_spec (List.length (resCh_buf sh)) (resCh_cap sh));
        [|lia].
      destruct (IH {| resCh_buf := resCh_buf sh ++ [res];
                      resCh_cap := resCh_cap sh; fa := fa sh |})
        as (sh' & Hrun & Hlen & Hcap).
      { cbn [resCh_buf resCh_cap]. rewrite length_app. simpl. lia. }
      exists sh'. split; [exact Hrun|]. split; [|exact Hcap].
      rewrite Hlen. cbn [resCh_buf]. rewrite length_app. simpl. lia.
    + destruct (IH {| resCh_buf := resCh_buf sh; resCh_cap := resCh_cap sh;
                      fa := cacheAddSuccessful (fa sh) a l |})
        as (sh' & Hrun & Hlen & Hcap); [exact Hroom|].
      exists sh'. auto.
    + destruct (IH {| resCh_buf := resCh_buf sh; resCh_cap := resCh_cap sh;
                      fa := cacheAddFailure (fa sh) a |})
        as (sh' & Hrun & Hlen & Hcap); [exact Hroom|].
      exists sh'. auto.
Qed.

Lemma In_set_nth {A} (ws : list (list A)) i x rest acts :
  nth_error ws i = Some (x :: rest) ->
  In acts (set_nth i rest ws) ->
  acts = rest \/ In acts ws.
Proof.
  revert i. induction ws as [|w ws IH]; intros [|i]; simpl; try discriminate.
  - intros _ [<- | Hin]; auto.
  - intros E [<- | Hin]; auto.
    destruct (IH _ E Hin); auto.
Qed.

Lemma step_results_for aps (r r' : Race (F := F)) :
  step r r' -> results_for aps r -> results_for aps r'.
Proof.
  intros Hs [Hbuf Hws].
  destruct Hs as [r i a rest sh' Hn He | r res buf' Hb]; split;
    cbn [shared workers resCh_buf].
  - assert (Hacts : sends_for aps (a :: rest))
      by (apply Hws; eapply nth_error_In; eassumption).
    destruct a as [res0|a l|a]; simpl in He.
    + destruct (_ <? _)%nat; [|discriminate]. inversion He. subst sh'.
      cbn [resCh_buf]. intros res Hin. apply in_app_or in Hin.
      destruct Hin as [Hin | [<- | []]]; [auto|].
      apply Hacts. left. reflexivity.
    + inversion He. subst sh'. exact Hbuf.
    + inversion He. subst sh'. exact Hbuf.
  - intros acts Hin. destruct (In_set_nth _ _ _ _ _ Hn Hin) as [-> | Hin'].
    + intros res Hres. apply (Hws _ (nth_error_In _ _ Hn)). right. exact Hres.
    + exact (Hws _ Hin').
  - intros res0 Hin. apply Hbuf. rewrite Hb. right. exact Hin.
  - exact Hws.
Qed.

Lemma reachable_results_for aps (r0 r : Race (F := F)) :
  results_for aps r0 -> reachable r0 r -> results_for aps r.
Proof.
  intros H0 Hr. induction Hr as [|r r' _ IH Hs]; auto.
  exact (step_results_for _ _ _ Hs IH).
Qed.

Lemma race_of_results_for (f : F) evs dials :
  results_for (map snd (started evs)) (race_of f evs dials).
Proof.
  split; cbn [race_of shared workers resCh_buf].
  - intros res [].
  - intros acts Hin. apply in_map_iff in Hin.
    destruct Hin as ([i [h ap]] & <- & Hin).
    apply in_combine_r in Hin.
    intros res [E | Hres].
    + inversion E. cbn [addrPort]. apply in_map_iff. exists (h, ap). auto.
    + destruct (negb (dial_failed (dials i))); destruct Hres as [E | []];
        discriminate.
Qed.

(** The workers of a call are started on uncached addresses of the list
    and on configured ports. *)
Lemma pingAll_started_targets (f : F) host ips sel ap :
  In ap (map snd (started (events (snd (pingAll f host ips (init sel)))))) ->
  probe_target f ips ap.
Proof.
  destruct ips as [|a [|b ips]]; [intros [] | intros [] |].
  set (l := a :: b :: ips).
  rewrite pingAll_started by (simpl; lia). rewrite started_scan.
  intros Hin. apply in_map_iff in Hin. destruct Hin as ([h ap'] & <- & Hin).
  apply in_flat_map in Hin. destruct Hin as (x & Hx & Hin).
  unfold uncached in Hin. destruct (cacheFind f x) eqn:Ex; [destruct Hin|].
  apply in_map_iff in Hin. destruct Hin as (p & Hp & Hpin).
  inversion Hp. subst. exists x, p. auto.
Qed.

End RaceMore.

(** X8. In every state that the race of a call reaches, all that the
    workers still have to do can be done with no further receive: run one
    after the other, they all come to their end, and the results they add
    to those already in the channel still fit its capacity.  So no worker is
    left behind blocked when the arbiter has returned. *)
Theorem X8_workers_run_to_completion_unread
    {F : Type} `{FastestAddrOps F} (f : F) (host : string)
    (ips : list netip.Addr) (sel : list selectCase)
    (dials : nat -> DialOutcome) (r : Race) :
  reachable (race_of f (events (snd (pingAll f host ips (init sel)))) dials) r ->
  exists sh',
    run_worker (List.concat (workers r)) (shared r) = Some sh' /\
    List.length (resCh_buf sh') =
      (List.length (resCh_buf (shared r)) + sends_left (workers r))%nat /\
    (List.length (resCh_buf sh') <= resCh_cap sh')%nat.
Proof.
  intros Hreach.
  pose proof (reachable_has_room _ _ (race_of_has_room f host ips sel dials)
                Hreach) as Hroom.
  unfold has_room, sends_left in Hroom.
  destruct (run_worker_with_room (List.concat (workers r)) (shared r) Hroom)
    as (sh' & Hrun & Hlen & Hcap).
  exists sh'. split; [exact Hrun|]. split; [exact Hlen|].
  rewrite Hlen, Hcap. exact Hroom.
Qed.

Lemma X8_witness :
  exists sh',
    run_worker
      (List.concat
         (workers (race_of fa_B50
                     (events (snd (pingAll fa_B50 "example.org" [ipA; ipB]
                                     (init []))))
                     (fun _ => dial_ok_30ms))))
      (shared (race_of fa_B50
                 (events (snd (pingAll fa_B50 "example.org" [ipA; ipB]
                                 (init []))))
                 (fun _ => dial_ok_30ms))) = Some sh' /\
    List.length (resCh_buf sh') =
      (List.length
         (resCh_buf
            (shared (race_of fa_B50
                       (events (snd (pingAll fa_B50 "example.org" [ipA; ipB]
                                       (init []))))
                       (fun _ => dial_ok_30ms))))
       + sends_left
           (workers (race_of fa_B50
                       (events (snd (pingAll fa_B50 "example.org" [ipA; ipB]
                                       (init []))))
                       (fun _ => dial_ok_30ms))))%nat /\
    (List.length (resCh_buf sh') <= resCh_cap sh')%nat.
Proof.
  apply (X8_workers_run_to_completion_unread fa_B50 "example.org" [ipA; ipB]
           [] (fun _ => dial_ok_30ms)).
  apply reach_refl.
Defined.

(** X9. In every state that the race of a call reaches, each result in the
    channel is for an address of the list that had no cache entry when the
    call was made, on a configured port cut to 16 bits: the arbiter can only
    receive results of probes that this call has started. *)
Theorem X9_channel_holds_results_of_started_probes
    {F : Type} `{FastestAddrOps F} (f : F) (host : string)
    (ips : list netip.Addr) (sel : list selectCase)
    (dials : nat -> DialOutcome) (r : Race) (res : pingResult) :
  reachable (race_of f (events (snd (pingAll f host ips (init sel)))) dials) r ->
  In res (resCh_buf (shared r)) ->
  probe_target f ips (addrPort res).
Proof.
  intros Hreach Hin.
  destruct (reachable_results_for _ _ _
              (race_of_results_for f _ dials) Hreach) as [Hbuf _].
  apply (pingAll_started_targets f host ips sel). apply Hbuf. exact Hin.
Qed.

Lemma X9_witness :
  probe_target fa_B50 [ipA; ipB] (netip.AddrPortFrom ipA 80).
Proof.
  pose (r0 := race_of fa_B50
                (events (snd (pingAll fa_B50 "example.org" [ipA; ipB]
                                (init []))))
                (fun _ => dial_ok_30ms)).
  pose (res := {| addrPort := netip.AddrPortFrom ipA 80;
                  latency := 30;
                  success := true |}).
  pose (sh1 := {| resCh_buf := [res]; resCh_cap := 4; fa := fa_B50 |}).
  assert (Hstep : step r0
                    {| shared := sh1;
                       workers :=
                         set_nth 0 [ActCacheAddSuccessful (netip.Unmap ipA) 30]
                                 (workers r0) |}).
  { apply (step_worker r0 0%nat (ActSend res)); reflexivity. }
  apply (X9_channel_holds_results_of_started_probes fa_B50 "example.org"
           [ipA; ipB] [] (fun _ => dial_ok_30ms) _ res
           (reach_step _ _ _ (reach_refl _) Hstep)).
  left. reflexivity.
Defined.

Section DecisionMore.

Context {F : Type} `{FastestAddrOps F}.

Lemma started_no_ports f host ips :
  pingPorts f = [] -> started (flat_map (scan_events f host) ips) = [].
Proof.
  intros Hp. rewrite started_scan.
  induction ips as [|a ips IH]; simpl; auto.
  rewrite IH, Hp. destruct (uncached f a); reflexivity.
Qed.

End DecisionMore.

(** X10. With no port configured, a call on two or more addresses of which
    one has no cache entry starts no worker and makes a channel of capacity
    zero, yet it enters the arbiter all the same: with no outcome of
    [select] it is left waiting, and it returns the best cached candidate
    only when the timer fires. *)
Theorem X10_no_ports_still_waits_for_timer
    {F : Type} `{FastestAddrOps F} (f : F) (host : string)
    (ips : list netip.Addr) :
  pingPorts f = [] ->
  (2 <= List.length ips)%nat ->
  (exists a, In a ips /\ cacheFind f a = None) ->
  (forall sel,
     started (events (snd (pingAll f host ips (init sel)))) = [] /\
     made_cap (events (snd (pingAll f host ips (init sel)))) = 0%nat) /\
  fst (pingAll f host ips (init [])) = None /\
  forall rest,
    exists cand,
      BestCached f ips cand /\
      fst (pingAll f host ips (init (AfterFired :: rest))) = Some cand.
Proof.
  intros Hp Hlen Hun. split; [|split].
  - intros sel. rewrite pingAll_started, pingAll_made_cap by assumption.
    rewrite started_no_ports by assumption. rewrite Hp. simpl.
    split; [reflexivity | lia].
  - rewrite pingAll_scheduled by assumption. reflexivity.
  - intros rest.
    exists (fst (fold_left (scan_result f) ips (None, false))).
    split; [apply scan_BestCached|].
    change (AfterFired :: rest) with (arrivals [] AfterFired rest).
    rewrite pingAll_timeout by (try constructor; assumption). reflexivity.
Qed.

Lemma X10_witness :
  fst (pingAll fa_noports_A50 "example.org" [ipA; ipB] (init [])) = None /\
  fst (pingAll fa_noports_A50 "example.org" [ipA; ipB] (init [AfterFired])) =
    Some (Some {| addrPort := netip.AddrPortFrom ipA 0;
                  latency := 50;
                  success := true |}).
Proof.
  destruct (X10_no_ports_still_waits_for_timer fa_noports_A50 "example.org"
              [ipA; ipB]) as (_ & Hwait & _).
  - reflexivity.
  - simpl. lia.
  - exists ipB. split; [simpl; auto | reflexivity].
  - split; [exact Hwait | reflexivity].
Defined.

(** X12. The latency that a worker sends: for elapsed times that a clock
    can measure it is a [uint] value, it is zero for a dial of less than a
    millisecond, and it never decreases when the elapsed time grows, so a
    shorter dial never reports the larger latency, though two dials less
    than a millisecond apart may report the same. *)
Theorem X12_worker_latency_monotone
    (host : string) (ap : netip.AddrPort) (d1 d2 : DialOutcome)
    (r1 r2 : pingResult) :
  0 <= elapsed d1 <= elapsed d2 ->
  elapsed d2 < 2 ^ 63 ->
  In (ActSend r1) (pingDoTCP host ap d1) ->
  In (ActSend r2) (pingDoTCP host ap d2) ->
  0 <= latency r1 <= latency r2 /\
  latency r2 < 2 ^ 64 /\
  (elapsed d1 < 1000000 -> latency r1 = 0) /\
  (latency r1 = latency r2 -> elapsed d2 - elapsed d1 < 1000000).
Proof.
  intros He1 He2 H1 H2.
  assert (Hs : forall d r, In (ActSend r) (pingDoTCP host ap d) ->
                 latency r = uint_of_int64 (Milliseconds (elapsed d))).
  { intros d r [E | Hin].
    - inversion E. reflexivity.
    - destruct (negb (dial_failed d)); destruct Hin as [E | []];
        discriminate. }
  rewrite (Hs _ _ H1), (Hs _ _ H2), !latency_floor by lia.
  pose proof (Z.div_le_mono (elapsed d1) (elapsed d2) 1000000 ltac:(lia)
                ltac:(lia)) as Hmono.
  pose proof (Z.div_pos (elapsed d1) 1000000 ltac:(lia) ltac:(lia)) as Hpos.
  repeat split; try lia.
  - apply Z.div_lt_upper_bound; lia.
  - intros Hlt. apply Z.div_small. lia.
  - intros Heq.
    pose proof (Z.div_mod (elapsed d1) 1000000 ltac:(lia)) as E1.
    pose proof (Z.div_mod (elapsed d2) 1000000 ltac:(lia)) as E2.
    pose proof (Z.mod_pos_bound (elapsed d1) 1000000 ltac:(lia)).
    pose proof (Z.mod_pos_bound (elapsed d2) 1000000 ltac:(lia)).
    lia.
Qed.

Lemma X12_witness :
  0 <= latency {| addrPort := netip.AddrPortFrom ipA 80;
                  latency := 0;
                  success := true |}
    <= latency {| addrPort := netip.AddrPortFrom ipA 80;
                  latency := 30;
                  success := true |}.
Proof.
  refine (proj1 (X12_worker_latency_monotone "example.org"
                   (netip.AddrPortFrom ipA 80)
                   {| dial_failed := false; elapsed := 999999 |}
                   dial_ok_30ms _ _ _ _ (or_introl eq_refl)
                   (or_introl eq_refl))).
  - simpl. lia.
  - simpl. lia.
Defined.

(** * The scan while the workers run *)

Section SeenFacts.

Context {F : Type} `{FastestAddrOps F}.

(** The numbering is that of the positions in the list. *)
Lemma In_combine_seq (ips : list netip.Addr) k i a :
  In (i, a) (combine (seq k (List.length ips)) ips) <->
  (k <= i)%nat /\ nth_error ips (i - k) = Some a.
Proof.
  revert k. induction ips as [|b ips IH]; intros k; simpl.
  - split; [intros [] | intros [_ E]]. destruct (i - k)%nat; discriminate.
  - rewrite IH. split.
    + intros [E | [Hle Hn]].
      * inversion E. subst. rewrite Nat.sub_diag. split; [lia | reflexivity].
      * split; [lia|]. replace (i - k)%nat with (S (i - S k)) by lia.
        exact Hn.
    + intros [Hle Hn]. destruct (i - k)%nat as [|m] eqn:E.
      * left. inversion Hn. f_equal. lia.
      * right. split; [lia|]. replace (i - S k)%nat with m by lia. exact Hn.
Qed.

Lemma In_numbered (ips : list netip.Addr) i a :
  In (i, a) (numbered ips) <-> nth_error ips i = Some a.
Proof.
  unfold numbered. rewrite In_combine_seq, Nat.sub_0_r.
  split; [intros [_ E]; exact E | intros E; split; [lia | exact E]].
Qed.

Lemma map_snd_combine_seq (ips : list netip.Addr) k :
  map snd (combine (seq k (List.length ips)) ips) = ips.
Proof.
  revert k. induction ips as [|a ips IH]; intros k; simpl; auto.
  rewrite IH. reflexivity.
Qed.

Lemma Conc_body_run seen (f : F) host i a st s :
  Conc.schedulePings_body seen f host i a st s =
  (Some (seen_result seen st (i, a)),
   {| events := events s ++ seen_events seen f host (i, a);
      pending := pending s |}).
Proof.
  destruct st as [pr scheduled].
  unfold Conc.schedulePings_body, seen_result, seen_events, Conc.do_cacheFind.
  unfold bind at 1 2. unfold emit, ret. cbn [fst snd].
  destruct (seen i a) as [c|].
  - destruct (_ && _); reflexivity.
  - unfold bind. rewrite forEach_go. simpl. rewrite <- app_assoc.
    reflexivity.
Qed.

Lemma Conc_loop_run seen (f : F) host k ips st s :
  Conc.schedulePings_loop seen f host k ips st s =
  (Some (fold_left (seen_result seen)
           (combine (seq k (List.length ips)) ips) st),
   {| events := events s
                ++ flat_map (seen_events seen f host)
                     (combine (seq k (List.length ips)) ips);
      pending := pending s |}).
Proof.
  revert k st s. induction ips as [|a ips IH]; intros k st s; simpl.
  - unfold ret. rewrite app_nil_r. destruct s; reflexivity.
  - unfold bind. rewrite Conc_body_run, IH. cbn [events pending].
    rewrite <- app_assoc. reflexivity.
Qed.

Lemma Conc_schedulePings_run seen (f : F) ips host s :
  Conc.schedulePings seen f ips host s =
  (Some (fold_left (seen_result seen) (numbered ips) (None, false)),
   {| events := events s ++ flat_map (seen_events seen f host) (numbered ips);
      pending := pending s |}).
Proof. unfold Conc.schedulePings. apply Conc_loop_run. Qed.

(** [Conc.pingAll] on two or more addresses: the scan, then the arbiter
    unless nothing was scheduled. *)
Lemma Conc_pingAll_run seen (f : F) host ips s :
  (2 <= List.length ips)%nat ->
  Conc.pingAll seen f host ips s =
  let st := fold_left (seen_result seen) (numbered ips) (None, false) in
  if negb (snd st) then (Some (fst st), seen_scanned seen f host ips s)
  else match firstSuccessRes f host (seen_scanned seen f host ips s) with
       | (Some live, s2) =>
           (Some (lower_latency_live_first live (fst st)), s2)
       | (None, s2) => (None, s2)
       end.
Proof.
  intros Hlen. destruct ips as [|a [|b ips]]; simpl in Hlen; try lia.
  unfold Conc.pingAll. set (l := a :: b :: ips).
  unfold bind at 1. unfold emit.
  unfold bind at 1. rewrite Conc_schedulePings_run. cbv zeta.
  cbn [events pending]. rewrite <- app_assoc. cbn [app].
  fold (seen_scanned seen f host l s).
  destruct (fold_left (seen_result seen) (numbered l) (None, false))
    as [pr scheduled]. cbn [fst snd].
  destruct scheduled; cbn [negb]; [|reflexivity].
  unfold bind.
  destruct (firstSuccessRes f host (seen_scanned seen f host l s))
    as [[[res|]|] s2]; try reflexivity.
  unfold lower_latency_live_first.
  destruct pr as [p|]; [|reflexivity].
  rewrite Z.leb_antisym. destruct (latency p <? latency res); reflexivity.
Qed.

(** The scan that no write disturbs is the scan of the cache as it stood
    at the call. *)
Lemma Conc_loop_at_call (f : F) host k ips st s :
  Conc.schedulePings_loop (at_call f) f host k ips st s =
  schedulePings_loop f host ips st s.
Proof.
  revert k st s. induction ips as [|a ips IH]; intros k st s; simpl; auto.
  unfold bind.
  change (Conc.schedulePings_body (at_call f) f host k a st s)
    with (schedulePings_body f host a st s).
  destruct (schedulePings_body f host a st s) as [[st'|] s']; auto.
Qed.

Lemma Conc_pingAll_at_call (f : F) host ips s :
  Conc.pingAll (at_call f) f host ips s = pingAll f host ips s.
Proof.
  destruct ips as [|a [|b ips]]; [reflexivity | reflexivity |].
  unfold Conc.pingAll, pingAll, Conc.schedulePings, schedulePings.
  unfold bind, emit. rewrite Conc_loop_at_call. reflexivity.
Qed.

Lemma seen_fold_snd seen l pr b :
  snd (fold_left (seen_result seen) l (pr, b)) = true <->
  b = true \/ exists i a, In (i, a) l /\ seen i a = None.
Proof.
  revert pr b. induction l as [|[i a] l IH]; intros pr b; simpl.
  - split; [auto | intros [E | (i & a & [] & _)]; exact E].
  - unfold seen_result at 2. cbn [fst snd].
    destruct (seen i a) as [c|] eqn:Ec.
    + assert (Hstep : forall pr', snd (fold_left (seen_result seen) l (pr', b))
                        = true <->
                        b = true \/
                        exists i0 a0, ((i, a) = (i0, a0) \/ In (i0, a0) l) /\
                                      seen i0 a0 = None).
      { intros pr'. rewrite IH. split.
        - intros [E | (j & x & Hin & Hx)]; [auto|]. right. exists j, x. auto.
        - intros [E | (j & x & [E | Hin] & Hx)]; [auto | |].
          + inversion E. subst. congruence.
          + right. exists j, x. auto. }
      destruct (_ && _); apply Hstep.
    + rewrite IH. split; intros _; [|left; reflexivity].
      right. exists i, a. auto.
Qed.

Lemma seen_scheduled_iff seen ips :
  snd (fold_left (seen_result seen) (numbered ips) (None, false)) = true <->
  some_unseen seen ips.
Proof.
  rewrite seen_fold_snd. unfold some_unseen.
  split; [intros [E | E]; [discriminate | exact E] | auto].
Qed.

Lemma seen_ok_fun seen i a l l' :
  seen_ok seen i a l -> seen_ok seen i a l' -> l = l'.
Proof.
  intros (e & E & _ & L) (e' & E' & _ & L'). congruence.
Qed.

Lemma BestAmong_snoc seen l pr b i a :
  BestAmong seen l pr ->
  BestAmong seen (l ++ [(i, a)]) (fst (seen_result seen (pr, b) (i, a))).
Proof.
  intros HB. unfold seen_result. cbn [fst snd].
  assert (Hkeep : (forall lat, seen_ok seen i a lat ->
                     match pr with
                     | Some p => latency p <= lat
                     | None => False
                     end) ->
                  BestAmong seen (l ++ [(i, a)]) pr).
  { intros Hle. destruct pr as [p|].
    - destruct HB as (l1 & j & x & l2 & -> & Hx & Hp & H1 & H2).
      exists l1, j, x, (l2 ++ [(i, a)]). rewrite <- app_assoc.
      repeat split; auto.
      intros j0 b0 lat Hin Hb0. apply in_app_or in Hin.
      destruct Hin as [Hin | [E | []]]; [eauto|].
      inversion E. subst. exact (Hle _ Hb0).
    - intros j0 b0 lat Hin Hb0. apply in_app_or in Hin.
      destruct Hin as [Hin | [E | []]]; [exact (HB _ _ _ Hin Hb0)|].
      inversion E. subst. exact (Hle _ Hb0). }
  destruct (seen i a) as [c|] eqn:Ec.
  - destruct (status c =? 0) eqn:Es; cbn [andb].
    + apply Z.eqb_eq in Es.
      assert (Hok : seen_ok seen i a (latencyMsec c)) by (exists c; auto).
      destruct pr as [p|].
      * destruct (latencyMsec c <? latency p) eqn:El; cbn [fst].
        -- apply Z.ltb_lt in El.
           destruct HB as (l1 & j & x & l2 & -> & Hx & _ & H1 & H2).
           exists (l1 ++ (j, x) :: l2), i, a, []. cbn [latency].
           repeat split; auto.
           ++ intros j0 b0 lat Hin Hb0. apply in_app_or in Hin.
              destruct Hin as [Hin | [E | Hin]].
              ** specialize (H1 _ _ _ Hin Hb0). lia.
              ** inversion E. subst.
                 rewrite <- (seen_ok_fun _ _ _ _ _ Hx Hb0). lia.
              ** specialize (H2 _ _ _ Hin Hb0). lia.
           ++ intros j0 b0 lat [].
        -- apply Z.ltb_ge in El. apply Hkeep. intros lat Hlat.
           rewrite <- (seen_ok_fun _ _ _ _ _ Hok Hlat). exact El.
      * cbn [fst]. exists l, i, a, []. cbn [latency].
        repeat split; auto.
        -- intros j0 b0 lat Hin Hb0. exfalso. exact (HB _ _ _ Hin Hb0).
        -- intros j0 b0 lat [].
    + cbn [fst]. apply Z.eqb_neq in Es. apply Hkeep.
      intros lat (e & E & S0 & _). exfalso. congruence.
  - cbn [fst]. apply Hkeep. intros lat (e & E & _). exfalso. congruence.
Qed.

(** The candidate that the scan returns is the best that its lookups
    give. *)
Lemma scan_BestAmong seen l :
  BestAmong seen l (fst (fold_left (seen_result seen) l (None, false))).
Proof.
  induction l as [|[i a] l IH] using rev_ind.
  - simpl. intros i a lat [].
  - rewrite fold_left_app. cbn [fold_left].
    destruct (fold_left (seen_result seen) l (None, false)) as [pr b].
    apply BestAmong_snoc. exact IH.
Qed.

Lemma BestAmong_from_lookup seen l c :
  BestAmong seen l (Some c) ->
  exists i a, In (i, a) l /\ seen_ok seen i a (latency c) /\
              c = {| addrPort := netip.AddrPortFrom a 0;
                     latency := latency c;
                     success := true |}.
Proof.
  intros (l1 & i & a & l2 & -> & Ha & Hc & _). exists i, a.
  split; [apply in_or_app; right; left; reflexivity | auto].
Qed.

Lemma seen_started seen (f : F) host l :
  started (flat_map (seen_events seen f host) l) =
  flat_map (fun ia : nat * netip.Addr =>
              match seen (fst ia) (snd ia) with
              | None => map (fun p => (host, netip.AddrPortFrom (snd ia)
                                               (uint16 p)))
                            (pingPorts f)
              | Some _ => []
              end) l.
Proof.
  induction l as [|[i a] l IH]; simpl; auto.
  rewrite started_app, IH. f_equal.
  destruct (seen i a); [reflexivity|]. apply started_go.
Qed.

Lemma seen_selects seen (f : F) host l :
  selects (flat_map (seen_events seen f host) l) = [].
Proof.
  induction l as [|[i a] l IH]; simpl; auto.
  rewrite selects_app, IH, app_nil_r.
  destruct (seen i a); [reflexivity|]. apply selects_go.
Qed.

Lemma seen_looked_up seen (f : F) host l :
  looked_up (flat_map (seen_events seen f host) l) = map snd l.
Proof.
  induction l as [|[i a] l IH]; simpl; auto.
  rewrite looked_up_app, IH. f_equal.
  destruct (seen i a); [reflexivity|]. rewrite looked_up_go. reflexivity.
Qed.

Lemma unseen_or_all_seen (seen : Conc.View) (ips : list netip.Addr) n :
  (exists i a, In (i, a) (numbered ips) /\ seen i a = None) \/
  (forall j b, (j < n)%nat -> In (j, b) (numbered ips) -> seen j b <> None).
Proof.
  induction n as [|n [IH | IH]].
  - right. intros j b Hj. lia.
  - left. exact IH.
  - destruct (nth_error ips n) as [b|] eqn:En.
    + destruct (seen n b) eqn:Es.
      * right. intros j b' Hj Hin.
        destruct (Nat.eq_dec j n) as [-> | Hne].
        -- apply In_numbered in Hin. rewrite En in Hin. inversion Hin.
           subst. congruence.
        -- apply IH; [lia | exact Hin].
      * left. exists n, b. split; [apply In_numbered; exact En | exact Es].
    + right. intros j b' Hj Hin.
      destruct (Nat.eq_dec j n) as [-> | Hne].
      * apply In_numbered in Hin. congruence.
      * apply IH; [lia | exact Hin].
Qed.

(** When the cache is written only once a worker is started, an address
    without entry at the call makes some lookup of the scan find no
    entry. *)
Lemma uncached_at_call_is_unseen (f : F) seen ips :
  undisturbed_before_go f seen ips ->
  (exists a, In a ips /\ cacheFind f a = None) ->
  some_unseen seen ips.
Proof.
  intros Hund (a & Hin & Ha).
  destruct (unseen_or_all_seen seen ips (List.length ips)) as [Hl | Hr];
    [exact Hl|].
  apply In_nth_error in Hin. destruct Hin as [i Hi].
  exists i, a. split; [apply In_numbered; exact Hi|].
  rewrite (Hund i); [exact Ha|].
  intros j b Hj Hjb. apply Hr; [|exact Hjb].
  assert (i < List.length ips)%nat by (apply nth_error_Some; congruence).
  lia.
Qed.

End SeenFacts.

Section SeenDecision.

Context {F : Type} `{FastestAddrOps F}.

Lemma Conc_pingAll_fst seen (f : F) host ips sel :
  (2 <= List.length ips)%nat ->
  fst (Conc.pingAll seen f host ips (init sel)) =
  let st := fold_left (seen_result seen) (numbered ips) (None, false) in
  if snd st
  then match fst (firstSuccessRes_loop sel
                    (events (seen_scanned seen f host ips (init sel)))) with
       | Some live => Some (lower_latency_live_first live (fst st))
       | None => None
       end
  else Some (fst st).
Proof.
  intros Hlen. rewrite Conc_pingAll_run by assumption. cbv zeta.
  destruct (snd (fold_left (seen_result seen) (numbered ips) (None, false)));
    cbn [negb]; [|reflexivity].
  unfold firstSuccessRes. cbn [seen_scanned init pending].
  destruct (firstSuccessRes_loop sel _) as [[live|] s2]; reflexivity.
Qed.

Lemma Conc_pingAll_pending seen (f : F) host ips sel :
  (2 <= List.length ips)%nat ->
  some_unseen seen ips ->
  pending (snd (Conc.pingAll seen f host ips (init sel))) =
  pending (snd (firstSuccessRes_loop sel [])).
Proof.
  intros Hlen Hun. rewrite Conc_pingAll_run by assumption. cbv zeta.
  apply seen_scheduled_iff in Hun. rewrite Hun. cbn [negb].
  unfold firstSuccessRes. cbn [seen_scanned init pending events].
  rewrite <- (firstSuccessRes_loop_pending sel
                ([] ++ EvMakeChan (List.length ips * List.length (pingPorts f))
                 :: flat_map (seen_events seen f host) (numbered ips)) []).
  destruct (firstSuccessRes_loop sel _) as [[live|] s2]; reflexivity.
Qed.

Lemma Conc_pingAll_started seen (f : F) host ips sel :
  (2 <= List.length ips)%nat ->
  started (events (snd (Conc.pingAll seen f host ips (init sel)))) =
  started (flat_map (seen_events seen f host) (numbered ips)).
Proof.
  intros Hlen. rewrite Conc_pingAll_run by assumption. cbv zeta.
  destruct (negb _); [reflexivity|].
  pose proof (firstSuccessRes_loop_started
                (pending (seen_scanned seen f host ips (init sel)))
                (events (seen_scanned seen f host ips (init sel)))) as E.
  unfold firstSuccessRes.
  destruct (firstSuccessRes_loop _ _) as [[live|] s2]; exact E.
Qed.

Lemma seen_started_nonempty seen (f : F) host l :
  pingPorts f <> [] ->
  (exists i a, In (i, a) l /\ seen i a = None) ->
  (1 <= List.length (started (flat_map (seen_events seen f host) l)))%nat.
Proof.
  intros Hp (i & a & Hin & Ha). rewrite seen_started.
  induction l as [|[j b] l IH]; [destruct Hin|].
  cbn [flat_map fst snd]. rewrite length_app.
  destruct Hin as [E | Hin].
  - inversion E. subst. rewrite Ha, length_map.
    destruct (pingPorts f); [congruence | simpl; lia].
  - specialize (IH Hin). lia.
Qed.

End SeenDecision.

(** C1, amended.  On a call with two or more addresses and at least one
    configured port, in which the lookup of at least one address finds no
    cache entry, at least one probe worker is started; and whatever the
    arbiter yields on the outcomes of its [select], the decision is the
    lower-latency of that live result and the best cached candidate of the
    scan, the live one on equal latencies.  The lookups see the cache as the
    workers leave it; an address without entry when the call is made is
    enough when the cache is written only once a worker is started. *)
Theorem C1_uncached_address_starts_probes
    {F : Type} `{FastestAddrOps F} (seen : Conc.View) (f : F)
    (host : string) (ips : list netip.Addr) (sel : list selectCase) :
  (2 <= List.length ips)%nat ->
  pingPorts f <> [] ->
  some_unseen seen ips \/
  (undisturbed_before_go f seen ips /\
   exists a, In a ips /\ cacheFind f a = None) ->
  let out := Conc.pingAll seen f host ips (init sel) in
  (1 <= List.length (started (events (snd out))))%nat /\
  exists cand,
    BestSeen seen ips cand /\
    forall live evs s2,
      firstSuccessRes f host {| events := evs; pending := sel |}
        = (Some live, s2) ->
      fst out = Some (lower_latency_live_first live cand).
Proof.
  intros Hlen Hports Hun out.
  assert (Hsome : some_unseen seen ips).
  { destruct Hun as [Hs | [Hund Hcall]]; [exact Hs|].
    exact (uncached_at_call_is_unseen f seen ips Hund Hcall). }
  split.
  - subst out. rewrite Conc_pingAll_started by assumption.
    apply seen_started_nonempty; assumption.
  - exists (fst (fold_left (seen_result seen) (numbered ips) (None, false))).
    split; [apply scan_BestAmong|].
    intros live evs s2 Harb. subst out.
    rewrite Conc_pingAll_fst by assumption. cbv zeta.
    rewrite (proj2 (seen_scheduled_iff seen ips) Hsome).
    unfold firstSuccessRes in Harb. cbn [events pending] in Harb.
    rewrite (firstSuccessRes_loop_fst sel _ evs), Harb. reflexivity.
Qed.

Lemma C1_witness :
  (1 <= List.length
          (started (events (snd (Conc.pingAll view_own_write fa_empty
                                   "example.org" [ipA; ipB; ipA]
                                   (init [RecvRes res_ok_A80_1ms]))))))%nat /\
  fst (Conc.pingAll view_own_write fa_empty "example.org" [ipA; ipB; ipA]
         (init [RecvRes res_ok_A80_1ms])) =
  Some (Some {| addrPort := netip.AddrPortFrom ipA 0;
                latency := 0;
                success := true |}).
Proof.
  destruct (C1_uncached_address_starts_probes view_own_write fa_empty
              "example.org" [ipA; ipB; ipA] [RecvRes res_ok_A80_1ms])
    as (H1 & _).
  - simpl. lia.
  - discriminate.
  - left. exists 0%nat, ipA. split; [left; reflexivity | reflexivity].
  - split; [exact H1 | reflexivity].
Defined.

(** C3. When probes were scheduled, some lookup of the scan having found no
    entry, and the arbiter yields a successful fresh result [res]: with no
    cached candidate [pingAll] returns [res]; with a cached candidate [c],
    the one that the scan has collected from what its lookups found, it
    returns [res] whenever the latency of [res] is at most that of [c], and
    [c] when the latency of [c] is strictly lower. *)
Theorem C3_live_winner_against_candidate
    {F : Type} `{FastestAddrOps F} (seen : Conc.View) (f : F)
    (host : string) (ips : list netip.Addr) (fails : list pingResult)
    (res : pingResult) (rest : list selectCase) :
  (2 <= List.length ips)%nat ->
  some_unseen seen ips ->
  all_failed fails ->
  success res = true ->
  let out := Conc.pingAll seen f host ips
               (init (arrivals fails (RecvRes res) rest)) in
  exists cand,
    (forall s, fst (Conc.schedulePings seen f ips host s) = Some (cand, true)) /\
    BestSeen seen ips cand /\
    pending (snd out) = rest /\
    match cand with
    | None => fst out = Some (Some res)
    | Some c =>
        (latency res <= latency c -> fst out = Some (Some res)) /\
        (latency c < latency res -> fst out = Some (Some c))
    end.
Proof.
  intros Hlen Hun Hf Hres out.
  pose proof (proj2 (seen_scheduled_iff seen ips) Hun) as Hsch.
  exists (fst (fold_left (seen_result seen) (numbered ips) (None, false))).
  split; [|split; [apply scan_BestAmong | split]].
  - intros s. rewrite Conc_schedulePings_run. cbn [fst].
    destruct (fold_left (seen_result seen) (numbered ips) (None, false))
      as [pr b]. cbn [fst snd] in *. rewrite Hsch. reflexivity.
  - subst out. rewrite Conc_pingAll_pending by assumption.
    unfold arrivals. rewrite firstSuccessRes_loop_fails by assumption.
    simpl. rewrite Hres. reflexivity.
  - assert (E : fst out =
                Some (lower_latency_live_first (Some res)
                        (fst (fold_left (seen_result seen) (numbered ips)
                                (None, false))))).
    { subst out. rewrite Conc_pingAll_fst by assumption. cbv zeta.
      rewrite Hsch. unfold arrivals.
      rewrite firstSuccessRes_loop_fails by assumption.
      simpl. rewrite Hres. reflexivity. }
    rewrite E. unfold lower_latency_live_first.
    destruct (fst (fold_left (seen_result seen) (numbered ips) (None, false)))
      as [c|]; [|reflexivity].
    split; intros Hl.
    + apply Z.ltb_ge in Hl. rewrite Hl. reflexivity.
    + apply Z.ltb_lt in Hl. rewrite Hl. reflexivity.
Qed.

Lemma C3_witness :
  fst (Conc.pingAll view_own_write fa_empty "example.org" [ipA; ipB; ipA]
         (init (arrivals [res_fail_B] (RecvRes res_ok_A80_1ms) []))) =
  Some (Some {| addrPort := netip.AddrPortFrom ipA 0;
                latency := 0;
                success := true |}) /\
  exists cand,
    (forall s, fst (Conc.schedulePings view_own_write fa_empty
                      [ipA; ipB; ipA] "example.org" s) = Some (cand, true)) /\
    BestSeen view_own_write [ipA; ipB; ipA] cand /\
    pending (snd (Conc.pingAll view_own_write fa_empty "example.org"
                    [ipA; ipB; ipA]
                    (init (arrivals [res_fail_B] (RecvRes res_ok_A80_1ms) []))))
      = [] /\
    match cand with
    | None =>
        fst (Conc.pingAll view_own_write fa_empty "example.org"
               [ipA; ipB; ipA]
               (init (arrivals [res_fail_B] (RecvRes res_ok_A80_1ms) []))) =
        Some (Some res_ok_A80_1ms)
    | Some c =>
        (latency res_ok_A80_1ms <= latency c ->
         fst (Conc.pingAll view_own_write fa_empty "example.org"
                [ipA; ipB; ipA]
                (init (arrivals [res_fail_B] (RecvRes res_ok_A80_1ms) []))) =
         Some (Some res_ok_A80_1ms)) /\
        (latency c < latency res_ok_A80_1ms ->
         fst (Conc.pingAll view_own_write fa_empty "example.org"
                [ipA; ipB; ipA]
                (init (arrivals [res_fail_B] (RecvRes res_ok_A80_1ms) []))) =
         Some (Some c))
    end.
Proof.
  split; [reflexivity|].
  apply (C3_live_winner_against_candidate view_own_write fa_empty
           "example.org" [ipA; ipB; ipA] [res_fail_B] res_ok_A80_1ms []).
  - simpl. lia.
  - exists 0%nat, ipA. split; [left; reflexivity | reflexivity].
  - repeat constructor.
  - reflexivity.
Defined.

(** C4. When probes were scheduled, some lookup of the scan having found no
    entry, and the deadline fires before any successful result has arrived,
    [pingAll] returns normally, and what it returns is the candidate that
    the scan has collected, the best that its lookups found, or nil when it
    has collected none. *)
Theorem C4_timeout_returns_candidate
    {F : Type} `{FastestAddrOps F} (seen : Conc.View) (f : F)
    (host : string) (ips : list netip.Addr) (fails : list pingResult)
    (rest : list selectCase) :
  (2 <= List.length ips)%nat ->
  some_unseen seen ips ->
  all_failed fails ->
  let out := Conc.pingAll seen f host ips
               (init (arrivals fails AfterFired rest)) in
  exists cand,
    (forall s, fst (Conc.schedulePings seen f ips host s) = Some (cand, true)) /\
    BestSeen seen ips cand /\
    fst out = Some cand /\
    pending (snd out) = rest.
Proof.
  intros Hlen Hun Hf out.
  pose proof (proj2 (seen_scheduled_iff seen ips) Hun) as Hsch.
  exists (fst (fold_left (seen_result seen) (numbered ips) (None, false))).
  split; [|split; [apply scan_BestAmong | split]].
  - intros s. rewrite Conc_schedulePings_run. cbn [fst].
    destruct (fold_left (seen_result seen) (numbered ips) (None, false))
      as [pr b]. cbn [fst snd] in *. rewrite Hsch. reflexivity.
  - subst out. rewrite Conc_pingAll_fst by assumption. cbv zeta.
    rewrite Hsch. unfold arrivals.
    rewrite firstSuccessRes_loop_fails by assumption. reflexivity.
  - subst out. rewrite Conc_pingAll_pending by assumption.
    unfold arrivals. rewrite firstSuccessRes_loop_fails by assumption.
    reflexivity.
Qed.

Lemma C4_witness :
  fst (Conc.pingAll view_own_write fa_empty "example.org" [ipA; ipB; ipA]
         (init (arrivals [res_fail_B] AfterFired [RecvRes res_ok_A80_1ms]))) =
  Some (Some {| addrPort := netip.AddrPortFrom ipA 0;
                latency := 0;
                success := true |}) /\
  exists cand,
    (forall s, fst (Conc.schedulePings view_own_write fa_empty
                      [ipA; ipB; ipA] "example.org" s) = Some (cand, true)) /\
    BestSeen view_own_write [ipA; ipB; ipA] cand /\
    fst (Conc.pingAll view_own_write fa_empty "example.org" [ipA; ipB; ipA]
           (init (arrivals [res_fail_B] AfterFired [RecvRes res_ok_A80_1ms])))
      = Some cand /\
    pending (snd (Conc.pingAll view_own_write fa_empty "example.org"
                    [ipA; ipB; ipA]
                    (init (arrivals [res_fail_B] AfterFired
                             [RecvRes res_ok_A80_1ms]))))
      = [RecvRes res_ok_A80_1ms].
Proof.
  split; [reflexivity|].
  apply (C4_timeout_returns_candidate view_own_write fa_empty "example.org"
           [ipA; ipB; ipA] [res_fail_B] [RecvRes res_ok_A80_1ms]).
  - simpl. lia.
  - exists 0%nat, ipA. split; [left; reflexivity | reflexivity].
  - repeat constructor.
Defined.

(** X1. On any list of addresses, and whatever the cache answers while the
    workers run, [schedulePings] returns without blocking.  The candidate it
    returns is the best that its lookups have found: nil when no lookup
    found a success entry, otherwise the result built from the first lookup
    of least latency among those that found a success entry, with port 0 and
    the success flag set.  The flag it returns is true exactly when some
    lookup found no entry, whether or not a port is configured. *)
Theorem X1_schedulePings_candidate_and_flag
    {F : Type} `{FastestAddrOps F} (seen : Conc.View) (f : F)
    (ips : list netip.Addr) (host : string) (s : Coord) :
  exists cand scheduled,
    fst (Conc.schedulePings seen f ips host s) = Some (cand, scheduled) /\
    BestSeen seen ips cand /\
    (scheduled = true <-> some_unseen seen ips).
Proof.
  rewrite Conc_schedulePings_run. cbn [fst].
  exists (fst (fold_left (seen_result seen) (numbered ips) (None, false))),
         (snd (fold_left (seen_result seen) (numbered ips) (None, false))).
  split; [destruct (fold_left _ _ _); reflexivity|].
  split; [apply scan_BestAmong | apply seen_scheduled_iff].
Qed.

(** X2. The effects of [schedulePings], whatever the cache answers while
    the workers run: it looks every address of the list up in the cache
    exactly once, in input order, also after a candidate has been found; for
    every lookup that finds no entry, in the order of the scan, it starts
    one worker per configured port in the order of the ports, on the port
    cut to 16 bits and with the host passed on, and it starts no other
    worker; it enters no [select] and leaves the pending outcomes alone. *)
Theorem X2_schedulePings_effects
    {F : Type} `{FastestAddrOps F} (seen : Conc.View) (f : F)
    (ips : list netip.Addr) (host : string) (s : Coord) :
  exists new,
    events (snd (Conc.schedulePings seen f ips host s)) = events s ++ new /\
    pending (snd (Conc.schedulePings seen f ips host s)) = pending s /\
    looked_up new = ips /\
    selects new = [] /\
    started new =
      flat_map (fun ia : nat * netip.Addr =>
                  match seen (fst ia) (snd ia) with
                  | None => map (fun p => (host, netip.AddrPortFrom (snd ia)
                                                   (p mod 65536)))
                                (pingPorts f)
                  | Some _ => []
                  end) (numbered ips).
Proof.
  rewrite Conc_schedulePings_run. cbn [snd events pending].
  exists (flat_map (seen_events seen f host) (numbered ips)).
  split; [reflexivity|]. split; [reflexivity|].
  split; [rewrite seen_looked_up; apply map_snd_combine_seq|].
  split; [apply seen_selects | apply seen_started].
Qed.

(** X6. A result that [pingAll] returns on two or more addresses is either
    one that was received from the channel, with its success flag set, in a
    call one of whose lookups found no entry, or the result built from a
    success entry that a lookup of the scan found for an address of the
    list, with port 0 and the latency of that entry; the entry may be one
    that a worker of the same call has written. *)
Theorem X6_pingAll_result_provenance
    {F : Type} `{FastestAddrOps F} (seen : Conc.View) (f : F)
    (host : string) (ips : list netip.Addr) (sel : list selectCase)
    (r : pingResult) :
  (2 <= List.length ips)%nat ->
  fst (Conc.pingAll seen f host ips (init sel)) = Some (Some r) ->
  (In (RecvRes r) sel /\ success r = true /\ some_unseen seen ips) \/
  (exists i a, nth_error ips i = Some a /\ seen_ok seen i a (latency r) /\
               r = {| addrPort := netip.AddrPortFrom a 0;
                      latency := latency r;
                      success := true |}).
Proof.
  intros Hlen Hout. rewrite Conc_pingAll_fst in Hout by assumption.
  cbv zeta in Hout. pose proof (scan_BestAmong seen (numbered ips)) as HB.
  assert (Hcand : fst (fold_left (seen_result seen) (numbered ips)
                         (None, false)) = Some r ->
                  exists i a, nth_error ips i = Some a /\
                              seen_ok seen i a (latency r) /\
                              r = {| addrPort := netip.AddrPortFrom a 0;
                                     latency := latency r;
                                     success := true |}).
  { intros E. rewrite E in HB.
    destruct (BestAmong_from_lookup _ _ _ HB) as (i & a & Hin & Hok & Hr).
    exists i, a. split; [apply In_numbered; exact Hin | auto]. }
  destruct (snd (fold_left (seen_result seen) (numbered ips) (None, false)))
    eqn:Es.
  - apply seen_scheduled_iff in Es.
    destruct (fst (firstSuccessRes_loop sel _)) as [[res|]|] eqn:Ea;
      [| |discriminate].
    + pose proof (firstSuccessRes_loop_received _ _ _ Ea) as Hrecv.
      pose proof (firstSuccessRes_loop_success_fst _ _ _ Ea) as Hres.
      unfold lower_latency_live_first in Hout.
      destruct (fst (fold_left (seen_result seen) (numbered ips)
                       (None, false))) as [c|].
      * destruct (latency c <? latency res); inversion Hout; subst.
        -- right. apply Hcand. reflexivity.
        -- left. auto.
      * inversion Hout. subst. left. auto.
    + simpl in Hout. inversion Hout as [E]. right. apply Hcand. exact E.
  - inversion Hout as [E]. right. apply Hcand. exact E.
Qed.

Lemma X6_witness :
  (In (RecvRes {| addrPort := netip.AddrPortFrom ipA 0;
                  latency := 0;
                  success := true |}) [RecvRes res_ok_A80_1ms] /\
   success {| addrPort := netip.AddrPortFrom ipA 0;
              latency := 0;
              success := true |} = true /\
   some_unseen view_own_write [ipA; ipB; ipA]) \/
  (exists i a,
     nth_error [ipA; ipB; ipA] i = Some a /\
     seen_ok view_own_write i a 0 /\
     {| addrPort := netip.AddrPortFrom ipA 0; latency := 0; success := true |}
     = {| addrPort := netip.AddrPortFrom a 0; latency := 0; success := true |}).
Proof.
  apply (X6_pingAll_result_provenance view_own_write fa_empty "example.org"
           [ipA; ipB; ipA] [RecvRes res_ok_A80_1ms]
           {| addrPort := netip.AddrPortFrom ipA 0;
              latency := 0;
              success := true |}).
  - simpl. lia.
  - reflexivity.
Defined.
